(** * enki/rabbitmq: Session and Connection

    A shallow embedding of [rabbitmq/session.go] and the [Connection]
    wrapper that follows it in the same source file.

    The Go code talks to three collaborators that live outside the
    repository: the AMQP client library, the protobuf marshaller and the
    zap logger.  Calls into them are recorded, in program order, in a
    log of events; what the AMQP library answers is given by an
    environment [Amqp] whose answers may depend on the whole history of
    events so far.  Go panics (nil pointer dereference, failed type
    assertion) are a separate outcome next to a normal return. *)

From stdpp Require Import base option list gmap strings.


(** ** Handles, payloads and events *)

(** [*amqp.Connection] and [*amqp.Channel]: the identity of an open
    transport, respectively of a channel opened on one.  A nil pointer
    is [None] at the places where the code can hold one. *)
Definition Transport := nat.
Definition Channel := nat.

(** Go's [error]: nil or a message. *)
Definition error := option string.

(** [type PublishExchange string] *)
Abbreviation PublishExchange := string (only parsing).

(** [amqp.Delivery], as far as the session looks at it. *)
Record Delivery := mkDelivery {
  RoutingKey : string;
  DeliveryTag : nat;
  DeliveryBody : string
}.

(** [amqp.Publishing], the fields [Publish] fills in. *)
Record Publishing := mkPublishing {
  ContentType : string;
  DeliveryMode : nat;
  Priority : nat;
  Body : string
}.

(** [amqp.Transient] *)
Definition Transient : nat := 1.

(** The [event interface{}] argument of [Publish]: the nil interface, a
    value whose dynamic type implements [proto.Message], or a value of
    any other dynamic type. *)
Inductive Value :=
| VNil
| VProto (m : string)
| VOther (repr : string).

(** Modelled from the spec: the [Declaration] type and the constructors
    [AutoExchange], [AutoQueue] and [AutoBinding] are declared in a file
    of the package that is not part of the sources at hand.  A
    declaration is a named unit of topology setup (declare exchange /
    declare queue / bind queue to exchange) that is run against a
    channel handle and yields success or failure; what the broker
    answers is part of the environment ([run_Declaration] below). *)
Inductive Declaration :=
| AutoExchange (exchangeName : string)
| AutoQueue (queueName : string)
| AutoBinding (routingKey queueName exchangeName : string).

Inductive Level := Info | Warn | Error.

Inductive Event :=
| EvLog (logger : string) (lvl : Level) (msg : string)
| EvDial (addr : string)
| EvNotifyClose (conn : Transport)
| EvGoMonitor (addr : string)
| EvClose (conn : Transport)
| EvChannel (conn : Transport)
| EvDeclare (ch : option Channel) (d : Declaration)
| EvPublish (ch : Channel) (exchange key : string)
            (mandatory immediate : bool) (msg : Publishing)
| EvQos (ch : Channel) (prefetchCount prefetchSize : nat) (global : bool)
| EvConsume (ch : Channel) (queue : string)
| EvHandler (d : Delivery)
| EvNack (d : Delivery) (multiple requeue : bool)
| EvSleep (seconds : nat).

Definition Log := list Event.

(** Modelled from the spec: the [Subscriber] type is declared outside
    the sources at hand.  A subscriber is the application callback the
    consume loop invokes synchronously with the raw delivery;
    acknowledging is its own business, so it is given here by the
    events it performs on the delivery. *)
Abbreviation Subscriber := (Delivery → list Event).

(** The collaborators.  Every answer may depend on the history. *)
Record Amqp := mkAmqp {
  amqp_Dial : Log → string → Transport + string;
  conn_Channel : Log → Transport → Channel + string;
  conn_Close : Log → Transport → error;
  run_Declaration : Log → option Channel → Declaration → error;
  ch_Publish : Log → Channel → string → string → Publishing → error;
  ch_Consume : Log → Channel → string → list Delivery + string;
  proto_Marshal : string → string + string
}.

(** ** Outcomes and the state monad the methods run in *)

Inductive Outcome (A : Type) : Type :=
| Returns (a : A) (l : Log)
| Panics (msg : string) (l : Log).
Arguments Returns {A} a l.
Arguments Panics {A} msg l.

Definition M (S A : Type) : Type := S → Log → Outcome (A * S).

Global Instance M_ret {S} : MRet (M S) :=
  λ A a s l, Returns (a, s) l.
Global Instance M_bind {S} : MBind (M S) :=
  λ A B f m s l,
    match m s l with
    | Returns (a, s') l' => f a s' l'
    | Panics msg l' => Panics msg l'
    end.

Definition get {S} : M S S := λ s l, Returns (s, s) l.
Definition gets {S A} (f : S → A) : M S A := λ s l, Returns (f s, s) l.
Definition modify {S} (f : S → S) : M S unit := λ s l, Returns (tt, f s) l.
Definition emit {S} (e : Event) : M S unit := λ s l, Returns (tt, s) (l ++ [e]).
Definition emits {S} (es : list Event) : M S unit := λ s l, Returns (tt, s) (l ++ es).
Definition history {S} : M S Log := λ s l, Returns (l, s) l.
Definition panic {S A} (msg : string) : M S A := λ s l, Panics msg l.

Definition nil_dereference : string :=
  "runtime error: invalid memory address or nil pointer dereference".

(** Run a method of the object behind a pointer field of [S]; a nil
    pointer panics as soon as the method touches a field of its
    receiver. *)
Definition through {S C A} (field : S → option C) (set : option C → S → S)
    (m : M C A) : M S A :=
  λ s l,
    match field s with
    | None => Panics nil_dereference l
    | Some c =>
        match m c l with
        | Returns (a, c') l' => Returns (a, set (Some c') s) l'
        | Panics msg l' => Panics msg l'
        end
    end.

(** ** Connection *)

Module Connection.

Record t := mk {
  addr : string;
  conn : option Transport;
  logger : string;
  done : bool;
  connected : bool;
  notifyCloseConnection : option Transport
}.

Definition set_conn (v : option Transport) (c : t) : t :=
  mk (addr c) v (logger c) (done c) (connected c) (notifyCloseConnection c).
Definition set_done (v : bool) (c : t) : t :=
  mk (addr c) (conn c) (logger c) v (connected c) (notifyCloseConnection c).
Definition set_connected (v : bool) (c : t) : t :=
  mk (addr c) (conn c) (logger c) (done c) v (notifyCloseConnection c).
Definition set_notifyCloseConnection (v : option Transport) (c : t) : t :=
  mk (addr c) (conn c) (logger c) (done c) (connected c) v.

Definition ReconnectDelay : nat := 5.

Definition NewConnection (addr logger : string) : t :=
  mk addr None logger false false None.

Definition IsConnected : M t bool := gets connected.

Definition setConnected (status : bool) : M t unit :=
  modify (set_connected status).

Definition cancel : M t unit := modify (set_done true).

(** [changeConnection] is only ever handed the handle a successful
    dial returned. *)
Definition changeConnection (connection : Transport) : M t unit :=
  modify (set_conn (Some connection));;
  modify (set_notifyCloseConnection (Some connection));;
  emit (EvNotifyClose connection).

Section Methods.
Variable E : Amqp.

Definition dial : M t (option Transport * error) :=
  setConnected false;;
  a ← gets addr;
  h ← history;
  emit (EvDial a);;
  match amqp_Dial E h a with
  | inr err => mret (None, Some err)
  | inl conn =>
      changeConnection conn;;
      setConnected true;;
      mret (Some conn, None)
  end.

Definition Connect : M t error :=
  '(conn, err) ← dial;
  modify (set_conn conn);;
  match err with
  | Some e => mret (Some ("unable to connect to amqp server: " +:+ e))
  | None =>
      a ← gets addr;
      emit (EvGoMonitor a);;
      mret None
  end.

Definition Shutdown : M t unit :=
  setConnected false;;
  cancel;;
  up ← IsConnected;
  if up : bool then
    c ← get;
    match conn c with
    | None => panic nil_dereference
    | Some tr =>
        h ← history;
        emit (EvClose tr);;
        match conn_Close E h tr with
        | Some e =>
            emit (EvLog (logger c) Warn "error while closing amqp connection")
        | None => mret tt
        end
    end
  else mret tt.

(** [reconnect] loops until a dial succeeds or the context is
    cancelled; [fuel] bounds the number of attempts, and the result
    tells whether the method returned within it. *)
Fixpoint reconnect (fuel : nat) : M t bool :=
  match fuel with
  | O => mret false
  | S fuel' =>
      stop ← gets done;
      if stop : bool then mret true
      else
        '(conn, err) ← dial;
        modify (set_conn conn);;
        lg ← gets logger;
        match err with
        | Some e =>
            emit (EvLog lg Warn "unable to connect to amqp server");;
            emit (EvSleep ReconnectDelay);;
            reconnect fuel'
        | None =>
            emit (EvLog lg Info "reconnected to amqp server");;
            setConnected true;;
            mret true
        end
  end.

(** The AMQP library's [Connection.Channel] locks a mutex of its
    receiver first, so a nil transport handle is a nil pointer
    dereference. *)
Definition Channel : M t (Channel + string) :=
  c ← get;
  match conn c with
  | None => panic nil_dereference
  | Some tr =>
      h ← history;
      emit (EvChannel tr);;
      mret (conn_Channel E h tr)
  end.

End Methods.

End Connection.

(** ** Session *)

(** zap's [Logger.Named]: name segments are joined by a period. *)
Definition Named (logger name : string) : string :=
  if String.eqb logger "" then name else logger +:+ "." +:+ name.

(** What a failed [event.(proto.Message)] reports. *)
Definition conversion_panic (event : Value) : string :=
  match event with
  | VNil => "interface conversion: interface is nil, not proto.Message"
  | VOther repr =>
      "interface conversion: " +:+ repr +:+ " is not proto.Message: missing method ProtoMessage"
  | VProto _ => ""
  end.

Module Session.

Record t := mk {
  addr : string;
  done : bool;
  logger : string;
  subscribers : gmap string Subscriber;
  publishers : gmap string PublishExchange;
  consumerQueue : string;
  consumeConn : option Connection.t;
  produceConn : option Connection.t;
  consumerDecls : list Declaration;
  producerDecls : list Declaration
}.

Definition set_done (v : bool) (s : t) : t :=
  mk (addr s) v (logger s) (subscribers s) (publishers s) (consumerQueue s)
     (consumeConn s) (produceConn s) (consumerDecls s) (producerDecls s).
Definition set_subscribers (v : gmap string Subscriber) (s : t) : t :=
  mk (addr s) (done s) (logger s) v (publishers s) (consumerQueue s)
     (consumeConn s) (produceConn s) (consumerDecls s) (producerDecls s).
Definition set_publishers (v : gmap string PublishExchange) (s : t) : t :=
  mk (addr s) (done s) (logger s) (subscribers s) v (consumerQueue s)
     (consumeConn s) (produceConn s) (consumerDecls s) (producerDecls s).
Definition set_consumerQueue (v : string) (s : t) : t :=
  mk (addr s) (done s) (logger s) (subscribers s) (publishers s) v
     (consumeConn s) (produceConn s) (consumerDecls s) (producerDecls s).
Definition set_consumeConn (v : option Connection.t) (s : t) : t :=
  mk (addr s) (done s) (logger s) (subscribers s) (publishers s) (consumerQueue s)
     v (produceConn s) (consumerDecls s) (producerDecls s).
Definition set_produceConn (v : option Connection.t) (s : t) : t :=
  mk (addr s) (done s) (logger s) (subscribers s) (publishers s) (consumerQueue s)
     (consumeConn s) v (consumerDecls s) (producerDecls s).
Definition set_consumerDecls (v : list Declaration) (s : t) : t :=
  mk (addr s) (done s) (logger s) (subscribers s) (publishers s) (consumerQueue s)
     (consumeConn s) (produceConn s) v (producerDecls s).
Definition set_producerDecls (v : list Declaration) (s : t) : t :=
  mk (addr s) (done s) (logger s) (subscribers s) (publishers s) (consumerQueue s)
     (consumeConn s) (produceConn s) (consumerDecls s) v.

Definition NewSession (addr logger : string) : t :=
  mk addr false logger ∅ ∅ "" None None [] [].

Definition AddSubscription (exchangeName queueName routingKey : string)
    (handler : Subscriber) : M t error :=
  s ← get;
  if negb (String.eqb (consumerQueue s) "")
     && negb (String.eqb (consumerQueue s) queueName)
  then
    mret (Some ("a consumer queue with name '" +:+ consumerQueue s
                +:+ "' has already been defined"))
  else
    modify (set_consumerQueue queueName);;
    modify (λ s, set_consumerDecls (consumerDecls s ++ [AutoExchange exchangeName]) s);;
    modify (λ s, set_consumerDecls (consumerDecls s ++ [AutoQueue queueName]) s);;
    modify (λ s, set_consumerDecls
                   (consumerDecls s ++ [AutoBinding routingKey queueName exchangeName]) s);;
    modify (λ s, set_subscribers (<[routingKey := handler]> (subscribers s)) s);;
    emit (EvLog (logger s) Info "added subscription");;
    mret None.

Definition AddPublisher (exchangeName routingKey : string) : M t error :=
  s ← get;
  match publishers s !! routingKey with
  | Some _ => mret (Some "a publisher with that routingKey is already registered")
  | None =>
      modify (λ s, set_producerDecls (producerDecls s ++ [AutoExchange exchangeName]) s);;
      modify (λ s, set_publishers (<[routingKey := exchangeName]> (publishers s)) s);;
      mret None
  end.

Section Methods.
Variable E : Amqp.

Definition Publish (routingKey : string) (event : Value) : M t error :=
  s ← get;
  match publishers s !! routingKey with
  | None =>
      mret (Some ("no publisher with routingKey " +:+ routingKey
                  +:+ " registered, cannot resolve exchange"))
  | Some exchange =>
      match event with
      | VProto protobuf =>
          match proto_Marshal E protobuf with
          | inr err => mret (Some err)
          | inl bodyBytes =>
              let publishing :=
                mkPublishing "application/octet-stream" Transient 0 bodyBytes in
              r ← through produceConn set_produceConn (Connection.Channel E);
              match r with
              | inr err => mret (Some err)
              | inl ch =>
                  h ← history;
                  emit (EvPublish ch exchange routingKey false false publishing);;
                  match ch_Publish E h ch exchange routingKey publishing with
                  | Some err => mret (Some err)
                  | None =>
                      emit (EvLog (logger s) Info
                              ("published message to exchange " +:+ exchange
                               +:+ " with routingKey " +:+ routingKey));;
                      mret None
                  end
              end
          end
      | _ => panic (conversion_panic event)
      end
  end.

Definition ensureConnections : M t error :=
  s ← get;
  err ← match consumerDecls s, consumeConn s with
        | _ :: _, None =>
            modify (set_consumeConn
                      (Some (Connection.NewConnection (addr s) (Named (logger s) "consumer"))));;
            err ← through consumeConn set_consumeConn (Connection.Connect E);
            match err with
            | Some e => mret (Some ("failed to create amqp connection: " +:+ e))
            | None =>
                emit (EvLog (logger s) Info "amqp consumer connection established");;
                mret None
            end
        | _, _ => mret None
        end;
  match err with
  | Some e => mret (Some e)
  | None =>
      s ← get;
      match producerDecls s, produceConn s with
      | _ :: _, None =>
          modify (set_produceConn
                    (Some (Connection.NewConnection (addr s) (Named (logger s) "producer"))));;
          err ← through produceConn set_produceConn (Connection.Connect E);
          match err with
          | Some e => mret (Some ("failed to create amqp connection: " +:+ e))
          | None =>
              emit (EvLog (logger s) Info "amqp producer connection established");;
              mret None
          end
      | _, _ => mret None
      end
  end.

(** The loop [for _, declare := range decls] of [Declare]; [role] is the
    word the error message of the loop names ("consumer" or
    "producer"). *)
Fixpoint declareAll (role : string) (ch : option Channel)
    (decls : list Declaration) : M t error :=
  match decls with
  | [] => mret None
  | declare :: rest =>
      h ← history;
      emit (EvDeclare ch declare);;
      match run_Declaration E h ch declare with
      | Some err => mret (Some ("failed to declare for " +:+ role +:+ ": " +:+ err))
      | None => declareAll role ch rest
      end
  end.

(** [ch, _ := c.Channel()]: the error is dropped and the handle is nil
    when there was one. *)
Definition dropError (r : Channel + string) : option Channel :=
  match r with inl ch => Some ch | inr _ => None end.

(** The method [Declare]; the underscore keeps its name apart from the
    vernacular keyword. *)
Definition Declare_ : M t error :=
  err ← ensureConnections;
  match err with
  | Some e => mret (Some e)
  | None =>
      s ← get;
      err ← match consumerDecls s with
            | [] => mret None
            | decls =>
                r ← through consumeConn set_consumeConn (Connection.Channel E);
                declareAll "consumer" (dropError r) decls
            end;
      match err with
      | Some e => mret (Some e)
      | None =>
          s ← get;
          match producerDecls s with
          | [] => mret None
          | decls =>
              r ← through produceConn set_produceConn (Connection.Channel E);
              declareAll "producer" (dropError r) decls
          end
      end
  end.

Definition Shutdown : M t unit :=
  s ← get;
  match consumeConn s with
  | Some _ =>
      through consumeConn set_consumeConn (Connection.Shutdown E);;
      emit (EvLog (logger s) Info "amqp consumer connection closed")
  | None => mret tt
  end;;
  match produceConn s with
  | Some _ =>
      through produceConn set_produceConn (Connection.Shutdown E);;
      emit (EvLog (logger s) Info "amqp producer connection closed")
  | None => mret tt
  end;;
  modify (set_done true).

(** One turn of [for delivery := range deliveries]. *)
Definition dispatch (delivery : Delivery) : M t unit :=
  s ← get;
  let routingKey := RoutingKey delivery in
  emit (EvLog (logger s) Info "incoming amqp delivery");;
  match subscribers s !! routingKey with
  | Some handler =>
      emit (EvHandler delivery);;
      emits (handler delivery)
  | None =>
      emit (EvLog (logger s) Error
              "delivery has routing key which cannot be processed, NACKing");;
      emit (EvNack delivery false false)
  end.

(** The feed is the list of deliveries the broker sends before it
    closes the channel. *)
Fixpoint rangeDeliveries (deliveries : list Delivery) : M t unit :=
  match deliveries with
  | [] => mret tt
  | delivery :: rest => dispatch delivery;; rangeDeliveries rest
  end.

(** [Consume] loops until the session context is cancelled; [fuel]
    bounds the number of turns of the outer loop, and the result tells
    whether the method returned within it. *)
Fixpoint Consume (fuel : nat) : M t bool :=
  match fuel with
  | O => mret false
  | S fuel' =>
      s ← get;
      if done s then mret true
      else
        up ← through consumeConn set_consumeConn Connection.IsConnected;
        if negb up then
          emit (EvLog (logger s) Info "consuming halted: connection offline");;
          emit (EvSleep 5);;
          Consume fuel'
        else
          r ← through consumeConn set_consumeConn (Connection.Channel E);
          match r with
          | inr err =>
              emit (EvLog (logger s) Error "failed to fetch channel");;
              Consume fuel'
          | inl ch =>
              emit (EvQos ch 10 0 false);;
              h ← history;
              emit (EvConsume ch (consumerQueue s));;
              match ch_Consume E h ch (consumerQueue s) with
              | inr err =>
                  emit (EvLog (logger s) Error "consumer error");;
                  Consume fuel'
              | inl deliveries =>
                  rangeDeliveries deliveries;;
                  Consume fuel'
              end
          end
  end.

End Methods.

End Session.

(** ** The life of a Connection as a transition system

    [Connect] and the watchdog goroutine it starts are one thread of
    control: [Connect] dials, then [monitorConnection] waits for a close
    notification and runs [reconnect], which dials again.  Other
    goroutines call [Shutdown] and [IsConnected] in between.  The steps
    below are the critical sections of that code, each run under
    [connMutex], in the orders the code allows; [Connect] is called once
    on a connection, as [ensureConnections] does. *)

Module Lifecycle.

Inductive Caller := ByConnect | ByReconnect.

(** Where the connecting thread stands. *)
Inductive Pc :=
| Fresh                                   (* [Connect] not called yet *)
| Dialing (k : Caller)                    (* in [dial], [amqp.Dial] running *)
| Installed (k : Caller) (tr : Transport) (* in [dial], after [changeConnection] *)
| DialedOk (k : Caller) (tr : Transport)  (* [dial] returned a handle *)
| DialedErr (k : Caller)                  (* [dial] returned an error *)
| Reconnected (tr : Transport)            (* [reconnect], handle assigned *)
| Watching                                (* [monitorConnection], in [select] *)
| Reconnecting                            (* [reconnect], at the loop head *)
| Stopped.                                (* [Connect] failed or watchdog gone *)

Record State := mkState { obj : Connection.t; pc : Pc }.

(** The connection after a critical section that cannot panic. *)
Definition after {A} (m : M Connection.t A) (c : Connection.t) : Connection.t :=
  match m c [] with
  | Returns (_, c') _ => c'
  | Panics _ _ => c
  end.


Definition initial (addr logger : string) : State :=
  mkState (Connection.NewConnection addr logger) Fresh.

Inductive step : State → State → Prop :=
(* Connect: c.dial() begins with c.setConnected(false) *)
| step_Connect c :
    step (mkState c Fresh)
         (mkState (after (Connection.setConnected false) c) (Dialing ByConnect))
(* dial: amqp.Dial failed, return nil, err *)
| step_Dial_error c k :
    step (mkState c (Dialing k)) (mkState c (DialedErr k))
(* dial: amqp.Dial returned conn; c.changeConnection(conn) *)
| step_Dial_ok c k tr :
    step (mkState c (Dialing k))
         (mkState (after (Connection.changeConnection tr) c) (Installed k tr))
(* dial: c.setConnected(true); return conn, nil *)
| step_dial_return c k tr :
    step (mkState c (Installed k tr))
         (mkState (after (Connection.setConnected true) c) (DialedOk k tr))
(* Connect: c.conn, err = c.dial() with an error; return it *)
| step_Connect_error c :
    step (mkState c (DialedErr ByConnect))
         (mkState (Connection.set_conn None c) Stopped)
(* Connect: c.conn, err = c.dial(); go c.monitorConnection() *)
| step_Connect_ok c tr :
    step (mkState c (DialedOk ByConnect tr))
         (mkState (Connection.set_conn (Some tr) c) Watching)
(* monitorConnection: a close notification arrives, c.reconnect() *)
| step_notifyClose c :
    step (mkState c Watching) (mkState c Reconnecting)
(* monitorConnection: <-c.ctx.Done() *)
| step_monitor_done c :
    Connection.done c = true →
    step (mkState c Watching) (mkState c Stopped)
(* reconnect: context cancelled, return to the watchdog loop *)
| step_reconnect_done c :
    Connection.done c = true →
    step (mkState c Reconnecting) (mkState c Watching)
(* reconnect: c.dial() begins with c.setConnected(false) *)
| step_reconnect_dial c :
    Connection.done c = false →
    step (mkState c Reconnecting)
         (mkState (after (Connection.setConnected false) c) (Dialing ByReconnect))
(* reconnect: c.conn, err = c.dial() with an error; sleep; continue *)
| step_reconnect_error c :
    step (mkState c (DialedErr ByReconnect))
         (mkState (Connection.set_conn None c) Reconnecting)
(* reconnect: c.conn, err = c.dial() with a handle *)
| step_reconnect_ok c tr :
    step (mkState c (DialedOk ByReconnect tr))
         (mkState (Connection.set_conn (Some tr) c) (Reconnected tr))
(* reconnect: c.setConnected(true); return to the watchdog loop *)
| step_reconnect_return c tr :
    step (mkState c (Reconnected tr))
         (mkState (after (Connection.setConnected true) c) Watching)
(* Shutdown, from another goroutine: c.setConnected(false) *)
| step_Shutdown_setConnected c p :
    step (mkState c p) (mkState (after (Connection.setConnected false) c) p)
(* Shutdown, from another goroutine: c.cancel() *)
| step_Shutdown_cancel c p :
    step (mkState c p) (mkState (after Connection.cancel c) p).

Definition reachable (addr logger : string) (st : State) : Prop :=
  rtc step (initial addr logger) st.


End Lifecycle.

(** ** Reading a log *)

(** The declarations a log shows as run, with the channel handle each
    was run on, in order. *)
Definition declarations (l : Log) : list (option Channel * Declaration) :=
  omap (λ e, match e with EvDeclare ch d => Some (ch, d) | _ => None end) l.

(** The transports a log shows as closed. *)
Definition closed (l : Log) : list Transport :=
  omap (λ e, match e with EvClose tr => Some tr | _ => None end) l.

(** The handlers a log shows as invoked, by the delivery handed over. *)
Definition handled (l : Log) : list Delivery :=
  omap (λ e, match e with EvHandler d => Some d | _ => None end) l.

(** What one delivery adds to the log. *)
Definition deliveryEvents (s : Session.t) (d : Delivery) : list Event :=
  EvLog (Session.logger s) Info "incoming amqp delivery"
  :: match Session.subscribers s !! RoutingKey d with
     | Some handler => EvHandler d :: handler d
     | None =>
         [EvLog (Session.logger s) Error
            "delivery has routing key which cannot be processed, NACKing";
          EvNack d false false]
     end.




(** ** Sample collaborators and objects *)

(** A broker that accepts everything; the feed it opens is empty. *)
Definition agreeable : Amqp :=
  mkAmqp (λ _ _, inl 1) (λ _ tr, inl (tr + 10)) (λ _ _, None)
         (λ _ _ _, None) (λ _ _ _ _ _, None) (λ _ _ _, inl [])
         (λ m, inl m).

(** A broker that cannot be reached. *)
Definition unreachable : Amqp :=
  mkAmqp (λ _ _, inr "dial tcp: connection refused") (λ _ _, inr "closed")
         (λ _ _, None) (λ _ _ _, None) (λ _ _ _ _ _, None)
         (λ _ _ _, inr "closed") (λ m, inl m).

(** A broker that refuses to declare queues. *)
Definition noQueues : Amqp :=
  mkAmqp (λ _ _, inl 1) (λ _ tr, inl (tr + 10)) (λ _ _, None)
         (λ _ _ d, match d with AutoQueue q => Some ("ACCESS_REFUSED " +:+ q) | _ => None end)
         (λ _ _ _ _ _, None) (λ _ _ _, inl []) (λ m, inl m).

Definition ackAll : Subscriber := λ d, [].
Definition dropAll : Subscriber := λ d, [EvNack d false false].

(** A connection that is up, on transport 7. *)
Definition liveConnection : Connection.t :=
  Connection.mk "amqp://broker" (Some 7) "log" false true (Some 7).

Definition emptySession : Session.t := Session.NewSession "amqp://broker" "log".

(** The state [run m s] ends in when [m] returns, else [s]. *)
Definition stateAfter {S A} (m : M S A) (s : S) : S :=
  match m s [] with
  | Returns (_, s') _ => s'
  | Panics _ _ => s
  end.

Definition oneSubscription : Session.t :=
  stateAfter (Session.AddSubscription "events" "q1" "user.created" ackAll) emptySession.

Definition unnamedQueue : Session.t :=
  stateAfter (Session.AddSubscription "events" "" "user.created" ackAll) emptySession.

Definition onePublisher : Session.t :=
  stateAfter (Session.AddPublisher "events" "user.created") emptySession.

Definition logAfter {S A} (m : M S A) (s : S) : Log :=
  match m s [] with
  | Returns _ l => l
  | Panics _ l => l
  end.


Definition created : Delivery := mkDelivery "user.created" 1 "a".
Definition deleted : Delivery := mkDelivery "user.deleted" 2 "b".
Definition createdAgain : Delivery := mkDelivery "user.created" 3 "c".

(** ** Further readings of a log, and what is registered *)

(** The addresses a log shows as dialled, the pauses it shows, and the
    messages it shows as handed to the broker. *)
Definition dials (l : Log) : list string :=
  omap (λ e, match e with EvDial a => Some a | _ => None end) l.

Definition sleeps (l : Log) : list nat :=
  omap (λ e, match e with EvSleep n => Some n | _ => None end) l.

Definition published (l : Log) : list (Channel * string * string * Publishing) :=
  omap (λ e, match e with
             | EvPublish ch ex key _ _ msg => Some (ch, ex, key, msg)
             | _ => None
             end) l.

(** What the registration methods write: handlers, exchanges, the queue
    name and the two declaration lists. *)
Definition registrations (s : Session.t) :
    gmap string Subscriber * gmap string string * string
    * list Declaration * list Declaration :=
  (Session.subscribers s, Session.publishers s, Session.consumerQueue s,
   Session.consumerDecls s, Session.producerDecls s).

(** The sessions a program can hold: a new one, and what any method
    call that returns leaves behind. *)
Inductive InUse : Session.t → Prop :=
| InUse_NewSession addr logger :
    InUse (Session.NewSession addr logger)
| InUse_AddSubscription s l exchangeName queueName routingKey handler err s' l' :
    InUse s →
    Session.AddSubscription exchangeName queueName routingKey handler s l
      = Returns (err, s') l' →
    InUse s'
| InUse_AddPublisher s l exchangeName routingKey err s' l' :
    InUse s →
    Session.AddPublisher exchangeName routingKey s l = Returns (err, s') l' →
    InUse s'
| InUse_Declare E s l err s' l' :
    InUse s →
    Session.Declare_ E s l = Returns (err, s') l' →
    InUse s'
| InUse_Publish E s l routingKey event err s' l' :
    InUse s →
    Session.Publish E routingKey event s l = Returns (err, s') l' →
    InUse s'
| InUse_Shutdown E s l s' l' :
    InUse s →
    Session.Shutdown E s l = Returns (tt, s') l' →
    InUse s'
| InUse_Consume E fuel s l r s' l' :
    InUse s →
    Session.Consume E fuel s l = Returns (r, s') l' →
    InUse s'.



(** A broker that refuses every channel. *)
Definition noChannels : Amqp :=
  mkAmqp (λ _ _, inl 1) (λ _ _, inr "channel/connection is not open") (λ _ _, None)
         (λ _ _ _, None) (λ _ _ _ _ _, None) (λ _ _ _, inl []) (λ m, inl m).

(** A broker whose feeds carry three deliveries. *)
Definition busy : Amqp :=
  mkAmqp (λ _ _, inl 1) (λ _ tr, inl (tr + 10)) (λ _ _, None)
         (λ _ _ _, None) (λ _ _ _ _ _, None)
         (λ _ _ _, inl [created; deleted; createdAgain]) (λ m, inl m).

(** A connection that lost its transport and has not reconnected yet. *)
Definition downConnection : Connection.t :=
  Connection.mk "amqp://broker" None "log" false false (Some 7).

Definition declaredSubscription : Session.t :=
  stateAfter (Session.Declare_ agreeable) oneSubscription.


Definition offlineSubscription : Session.t :=
  Session.set_consumeConn (Some downConnection) oneSubscription.

(** A method keeps [R] when every run that returns relates the state it
    started from to the state it ends in. *)
Definition keeps {S A} (R : S → S → Prop) (m : M S A) : Prop :=
  ∀ s l a s' l', m s l = Returns (a, s') l' → R s s'.

(** Nothing registered differs between the two sessions. *)
Definition sameRegistrations (s s' : Session.t) : Prop :=
  registrations s' = registrations s.

Global Instance sameRegistrations_refl : Reflexive sameRegistrations.
Proof. by intros s. Qed.

Global Instance sameRegistrations_trans : Transitive sameRegistrations.
Proof. unfold sameRegistrations. intros s1 s2 s3 H12 H23. congruence. Qed.

(** Every publisher's exchange and every subscriber's exchange, queue
    and binding are among the declarations [Declare] replays. *)
Definition topologyCovered (s : Session.t) : Prop :=
  (∀ key exchange,
     Session.publishers s !! key = Some exchange →
     AutoExchange exchange ∈ Session.producerDecls s)
  ∧ (∀ key (handler : Subscriber),
       Session.subscribers s !! key = Some handler →
       ∃ queue exchange,
         AutoExchange exchange ∈ Session.consumerDecls s
         ∧ AutoQueue queue ∈ Session.consumerDecls s
         ∧ AutoBinding key queue exchange ∈ Session.consumerDecls s).



(** * Properties *)

(** Unfold the monad down to the outcome of a run. *)
Ltac run :=
  unfold mbind, M_bind, mret, M_ret, get, gets, modify, emit, emits,
    history, panic; simpl.


(** ** Registration *)

Lemma AddPublisher_registers (s s1 : Session.t) (l l1 : Log)
    (exchangeName routingKey : string) :
  Session.AddPublisher exchangeName routingKey s l = Returns (None, s1) l1 →
  Session.publishers s1 !! routingKey = Some exchangeName ∧
  Session.producerDecls s1 = Session.producerDecls s ++ [AutoExchange exchangeName] ∧
  l1 = l.
Proof.
  unfold Session.AddPublisher. run.
  destruct (Session.publishers s !! routingKey) as [old|] eqn:Hold.
  - discriminate.
  - intros [= <- <-]. simpl. by rewrite lookup_insert_eq.
Qed.

(** C8. On a session where routing key [routingKey] is already
    registered to a publisher, another [AddPublisher] with that routing
    key returns an error; the session, and with it the exchange recorded
    for the key, is as before, and nothing is logged. *)
Theorem AddPublisher_duplicate_rejected (s : Session.t) (l : Log)
    (exchange other routingKey : string) :
  Session.publishers s !! routingKey = Some exchange →
  Session.AddPublisher other routingKey s l
    = Returns (Some "a publisher with that routingKey is already registered", s) l
  ∧ Session.publishers s !! routingKey = Some exchange.
Proof.
  intros Hreg. split; [|exact Hreg].
  unfold Session.AddPublisher. run. by rewrite Hreg.
Qed.

Lemma AddSubscription_accepted (s : Session.t) (l : Log)
    (exchangeName queueName routingKey : string) (handler : Subscriber) :
  Session.consumerQueue s = "" ∨ Session.consumerQueue s = queueName →
  Session.AddSubscription exchangeName queueName routingKey handler s l
    = Returns
        (None,
         Session.mk (Session.addr s) (Session.done s) (Session.logger s)
           (<[routingKey := handler]> (Session.subscribers s))
           (Session.publishers s) queueName
           (Session.consumeConn s) (Session.produceConn s)
           (((Session.consumerDecls s ++ [AutoExchange exchangeName])
               ++ [AutoQueue queueName])
               ++ [AutoBinding routingKey queueName exchangeName])
           (Session.producerDecls s))
        (l ++ [EvLog (Session.logger s) Info "added subscription"]).
Proof.
  intros Hq. unfold Session.AddSubscription. run.
  destruct Hq as [-> | ->].
  - reflexivity.
  - rewrite String.eqb_refl. simpl. rewrite andb_false_r. reflexivity.
Qed.

Lemma AddSubscription_rejected (s : Session.t) (l : Log)
    (exchangeName queueName routingKey : string) (handler : Subscriber) :
  Session.consumerQueue s ≠ "" →
  Session.consumerQueue s ≠ queueName →
  Session.AddSubscription exchangeName queueName routingKey handler s l
    = Returns
        (Some ("a consumer queue with name '" +:+ Session.consumerQueue s
               +:+ "' has already been defined"), s) l.
Proof.
  intros Hne Hother. unfold Session.AddSubscription. run.
  apply String.eqb_neq in Hne, Hother. by rewrite Hne, Hother.
Qed.

Lemma AddSubscription_sets_queue (s s1 : Session.t) (l l1 : Log)
    (exchangeName queueName routingKey : string) (handler : Subscriber) :
  Session.AddSubscription exchangeName queueName routingKey handler s l
    = Returns (None, s1) l1 →
  Session.consumerQueue s1 = queueName.
Proof.
  unfold Session.AddSubscription. run.
  destruct (negb _ && negb _); [discriminate|].
  by intros [= <- <-].
Qed.

(** C4, as amended. Once a subscription with a non-empty queue name
    [queueName] has been registered, [AddSubscription] with any other
    queue name returns an error and leaves the session (consumer queue
    name, subscriber map, declaration lists) and the log as they were. *)
Theorem AddSubscription_second_queue_rejected (s s1 : Session.t) (l l1 l2 : Log)
    (exchangeName queueName routingKey : string) (handler : Subscriber)
    (exchangeName' queueName' routingKey' : string) (handler' : Subscriber) :
  Session.AddSubscription exchangeName queueName routingKey handler s l
    = Returns (None, s1) l1 →
  queueName ≠ "" →
  queueName' ≠ queueName →
  Session.AddSubscription exchangeName' queueName' routingKey' handler' s1 l2
    = Returns
        (Some ("a consumer queue with name '" +:+ queueName
               +:+ "' has already been defined"), s1) l2.
Proof.
  intros Hfirst Hne Hother.
  apply AddSubscription_sets_queue in Hfirst.
  rewrite <- Hfirst at 1.
  apply AddSubscription_rejected; rewrite Hfirst; [done|by apply not_eq_sym].
Qed.

(** C4, as stated, fails: a first subscription may name the empty
    queue, and then a second one with another queue name is accepted
    and changes the session. *)
Lemma AddSubscription_after_unnamed_queue_accepted :
  ¬ (∀ (s s1 : Session.t) (l l1 l2 : Log)
       (exchangeName queueName routingKey : string) (handler : Subscriber)
       (exchangeName' queueName' routingKey' : string) (handler' : Subscriber),
       Session.AddSubscription exchangeName queueName routingKey handler s l
         = Returns (None, s1) l1 →
       queueName' ≠ queueName →
       ∃ e, Session.AddSubscription exchangeName' queueName' routingKey' handler' s1 l2
              = Returns (Some e, s1) l2).
Proof.
  intros Hclaim.
  destruct (Hclaim emptySession unnamedQueue [] [EvLog "log" Info "added subscription"] []
              "events" "" "user.created" ackAll
              "events" "q2" "user.deleted" dropAll) as [e He].
  - reflexivity.
  - discriminate.
  - vm_compute in He. discriminate.
Qed.

(** C10. [AddSubscription] with the queue name already set and a
    routing key that already has a handler returns nil: the new handler
    takes the place of the old one, and an exchange, a queue and a
    binding declaration are appended once more. *)
Theorem AddSubscription_duplicate_key_replaces (s : Session.t) (l : Log)
    (exchangeName queueName routingKey : string) (old handler : Subscriber) :
  Session.consumerQueue s = queueName →
  Session.subscribers s !! routingKey = Some old →
  ∃ s1,
    Session.AddSubscription exchangeName queueName routingKey handler s l
      = Returns (None, s1) (l ++ [EvLog (Session.logger s) Info "added subscription"])
    ∧ Session.subscribers s1 !! routingKey = Some handler
    ∧ (∀ k, k ≠ routingKey → Session.subscribers s1 !! k = Session.subscribers s !! k)
    ∧ Session.consumerDecls s1
        = Session.consumerDecls s
            ++ [AutoExchange exchangeName; AutoQueue queueName;
                AutoBinding routingKey queueName exchangeName]
    ∧ Session.consumerQueue s1 = queueName.
Proof.
  intros Hq Hold. eexists. split.
  - apply AddSubscription_accepted. by right.
  - simpl. split; [by rewrite lookup_insert_eq|].
    split; [intros k Hk; by rewrite lookup_insert_ne|].
    split; [|done]. by rewrite <- !app_assoc.
Qed.

(** ** Publish *)

(** C5. With no publisher registered for [routingKey], [Publish]
    returns the routing error for every event; the session and the log
    are untouched, so no channel was obtained and nothing was sent. *)
Theorem Publish_unregistered_key (E : Amqp) (s : Session.t) (l : Log)
    (routingKey : string) (event : Value) :
  Session.publishers s !! routingKey = None →
  Session.Publish E routingKey event s l
    = Returns
        (Some ("no publisher with routingKey " +:+ routingKey
               +:+ " registered, cannot resolve exchange"), s) l.
Proof.
  intros Hnone. unfold Session.Publish. run. by rewrite Hnone.
Qed.

Lemma Publish_not_a_message (E : Amqp) (s : Session.t) (l : Log)
    (routingKey exchange : string) (event : Value) :
  Session.publishers s !! routingKey = Some exchange →
  (∀ m, event ≠ VProto m) →
  Session.Publish E routingKey event s l = Panics (conversion_panic event) l.
Proof.
  intros Hreg Hev. unfold Session.Publish. run. rewrite Hreg.
  destruct event as [|m|repr]; [done| |done]. by destruct (Hev m).
Qed.

Lemma Channel_with_transport (E : Amqp) (c : Connection.t) (l : Log) (tr : Transport) :
  Connection.conn c = Some tr →
  Connection.Channel E c l = Returns (conn_Channel E l tr, c) (l ++ [EvChannel tr]).
Proof. intros Hc. unfold Connection.Channel. run. by rewrite Hc. Qed.

Lemma Channel_nil_transport (E : Amqp) (c : Connection.t) (l : Log) :
  Connection.conn c = None →
  Connection.Channel E c l = Panics nil_dereference l.
Proof. intros Hc. unfold Connection.Channel. run. by rewrite Hc. Qed.

(** C9. For a routing key with a registered publisher, an event that is
    not a protobuf message makes [Publish] panic at the type assertion,
    before anything is marshalled or sent; so whenever [Publish]
    returns, the event was a protobuf message.  For a protobuf message
    and a producer connection holding a transport, [Publish] returns. *)
Theorem Publish_asserts_proto_message (E : Amqp) (s : Session.t) (l : Log)
    (routingKey exchange : string) (event : Value) :
  Session.publishers s !! routingKey = Some exchange →
  ((∀ m, event ≠ VProto m) →
     Session.Publish E routingKey event s l = Panics (conversion_panic event) l)
  ∧ (∀ r l', Session.Publish E routingKey event s l = Returns r l' →
       ∃ m, event = VProto m)
  ∧ (∀ m c tr, event = VProto m →
       Session.produceConn s = Some c → Connection.conn c = Some tr →
       ∃ r l', Session.Publish E routingKey event s l = Returns r l').
Proof.
  intros Hreg. split; [|split].
  - by apply (Publish_not_a_message E s l routingKey exchange).
  - intros r l' Hret. destruct event as [|m|repr]; [|by exists m|].
    + rewrite (Publish_not_a_message E s l routingKey exchange) in Hret; done.
    + rewrite (Publish_not_a_message E s l routingKey exchange) in Hret; done.
  - intros m c tr -> Hp Hc. unfold Session.Publish. run. rewrite Hreg.
    destruct (proto_Marshal E m) as [body|err]; [|by eauto].
    unfold through. rewrite Hp, (Channel_with_transport E c l tr Hc).
    destruct (conn_Channel E l tr) as [ch|err]; [|by eauto].
    destruct (ch_Publish E _ ch exchange routingKey _); by eauto.
Qed.

Lemma Publish_without_producer (E : Amqp) (s : Session.t) (l : Log)
    (routingKey exchange m body : string) :
  Session.publishers s !! routingKey = Some exchange →
  proto_Marshal E m = inl body →
  (Session.produceConn s = None
   ∨ ∃ c, Session.produceConn s = Some c ∧ Connection.conn c = None) →
  Session.Publish E routingKey (VProto m) s l = Panics nil_dereference l.
Proof.
  intros Hreg Hm Hp. unfold Session.Publish. run. rewrite Hreg, Hm.
  unfold through. destruct Hp as [-> | (c & -> & Hc)]; [done|].
  by rewrite (Channel_nil_transport E c l Hc).
Qed.

(** C2: the code at the failing inputs.  [Channel] on a connection
    without a transport handle, and [Publish] for a registered routing
    key on a session without a producer connection, end in a nil pointer
    dereference instead of returning an error; the same happens after a
    [Declare] whose dial failed. *)
Theorem Channel_without_transport_crashes :
  Connection.Channel agreeable (Connection.NewConnection "amqp://broker" "log") []
    = Panics nil_dereference []
  ∧ Session.publishers onePublisher !! "user.created" = Some "events"
  ∧ Session.produceConn onePublisher = None
  ∧ Session.Publish agreeable "user.created" (VProto "payload") onePublisher []
      = Panics nil_dereference []
  ∧ ∃ e s1 l1,
      Session.Declare_ unreachable onePublisher [] = Returns (Some e, s1) l1
      ∧ Session.Publish unreachable "user.created" (VProto "payload") s1 l1
          = Panics nil_dereference l1.
Proof.
  split; [reflexivity|]. split; [reflexivity|]. split; [reflexivity|].
  split; [reflexivity|].
  eexists _, _, _. split; vm_compute; reflexivity.
Qed.

(** ** Shutdown *)

Lemma Shutdown_skips_close (E : Amqp) (c : Connection.t) (l : Log) :
  Connection.Shutdown E c l
    = Returns (tt, Connection.set_done true (Connection.set_connected false c)) l.
Proof. reflexivity. Qed.

(** C1: the code at the failing input.  [Shutdown] on a connection that
    is connected, with transport 7, returns without closing the
    transport: it clears the flag before it tests it.  No call reaches
    the AMQP library, whatever the library would answer. *)
Theorem Shutdown_leaves_transport_open (E : Amqp) :
  Connection.IsConnected liveConnection [] = Returns (true, liveConnection) []
  ∧ Connection.conn liveConnection = Some 7
  ∧ ∃ c', Connection.Shutdown E liveConnection [] = Returns (tt, c') []
          ∧ Connection.conn c' = Some 7
          ∧ Connection.connected c' = false
          ∧ Connection.done c' = true.
Proof.
  split; [reflexivity|]. split; [reflexivity|].
  eexists. split; [apply Shutdown_skips_close|]. by simpl.
Qed.

(** ** The consume loop *)

Lemma dispatch_returns (s : Session.t) (l : Log) (d : Delivery) :
  Session.dispatch d s l = Returns (tt, s) (l ++ deliveryEvents s d).
Proof.
  unfold Session.dispatch, deliveryEvents. run.
  destruct (Session.subscribers s !! RoutingKey d); simpl;
    by rewrite <- !app_assoc.
Qed.

Lemma rangeDeliveries_returns (s : Session.t) (ds : list Delivery) (l : Log) :
  Session.rangeDeliveries ds s l
    = Returns (tt, s) (l ++ concat (deliveryEvents s <$> ds)).
Proof.
  revert l. induction ds as [|d ds IH]; intros l; simpl.
  - run. by rewrite app_nil_r.
  - unfold mbind, M_bind. rewrite dispatch_returns, IH.
    by rewrite <- app_assoc.
Qed.

(** One turn of the outer loop of [Consume] on a live connection: the
    feed the broker opens is handed to the inner loop, and the outer
    loop goes on after it. *)
Lemma Consume_runs_the_feed (E : Amqp) (fuel : nat) (s : Session.t) (l : Log)
    (c : Connection.t) (tr : Transport) (ch : Channel) (ds : list Delivery) :
  Session.done s = false →
  Session.consumeConn s = Some c →
  Connection.connected c = true →
  Connection.conn c = Some tr →
  conn_Channel E l tr = inl ch →
  ch_Consume E ((l ++ [EvChannel tr]) ++ [EvQos ch 10 0 false]) ch
    (Session.consumerQueue s) = inl ds →
  Session.Consume E (S fuel) s l
  = (Session.rangeDeliveries ds;; Session.Consume E fuel)
      (Session.set_consumeConn (Some c) (Session.set_consumeConn (Some c) s))
      (((l ++ [EvChannel tr]) ++ [EvQos ch 10 0 false])
         ++ [EvConsume ch (Session.consumerQueue s)]).
Proof.
  intros Hdone Hcc Hup Hconn Hch Hfeed.
  simpl. unfold mbind at 1. unfold M_bind at 1. unfold get at 1.
  rewrite Hdone.
  unfold mbind at 1. unfold M_bind at 1. unfold through at 1.
  rewrite Hcc. unfold Connection.IsConnected, gets. rewrite Hup. simpl.
  unfold mbind at 1. unfold M_bind at 1. unfold through at 1. simpl.
  rewrite (Channel_with_transport E c l tr Hconn), Hch.
  run. by rewrite Hfeed.
Qed.

(** C6. A delivery whose routing key has no handler is
    negative-acknowledged with [requeue = false]; between the two log
    lines and the nack no handler runs; and the loop goes on with the
    deliveries that follow on the same feed, from the same session
    state. *)
Theorem unroutable_delivery_is_nacked (s : Session.t) (l : Log)
    (before rest : list Delivery) (d : Delivery) :
  Session.subscribers s !! RoutingKey d = None →
  ∃ l1,
    Session.rangeDeliveries before s l = Returns (tt, s) l1
    ∧ Session.dispatch d s l1
        = Returns (tt, s)
            (l1 ++ [EvLog (Session.logger s) Info "incoming amqp delivery";
                    EvLog (Session.logger s) Error
                      "delivery has routing key which cannot be processed, NACKing";
                    EvNack d false false])
    ∧ Session.rangeDeliveries (before ++ d :: rest) s l
        = Session.rangeDeliveries rest s
            (l1 ++ [EvLog (Session.logger s) Info "incoming amqp delivery";
                    EvLog (Session.logger s) Error
                      "delivery has routing key which cannot be processed, NACKing";
                    EvNack d false false])
    ∧ ∃ l2, Session.rangeDeliveries (before ++ d :: rest) s l = Returns (tt, s) l2.
Proof.
  intros Hnone. eexists. split; [apply rangeDeliveries_returns|].
  split; [|split].
  - rewrite dispatch_returns. unfold deliveryEvents. by rewrite Hnone.
  - rewrite !rangeDeliveries_returns.
    rewrite fmap_app, concat_app. simpl.
    unfold deliveryEvents at 2. rewrite Hnone.
    by rewrite <- !app_assoc.
  - eexists. apply rangeDeliveries_returns.
Qed.

(** ** Dialling and the connected flag *)

Lemma dial_resolves (E : Amqp) (c : Connection.t) (l : Log) :
  match amqp_Dial E l (Connection.addr c) with
  | inl tr =>
      Connection.dial E c l
        = Returns
            ((Some tr, None),
             Connection.mk (Connection.addr c) (Some tr) (Connection.logger c)
               (Connection.done c) true (Some tr))
            ((l ++ [EvDial (Connection.addr c)]) ++ [EvNotifyClose tr])
  | inr err =>
      Connection.dial E c l
        = Returns ((None, Some err), Connection.set_connected false c)
            (l ++ [EvDial (Connection.addr c)])
  end.
Proof.
  unfold Connection.dial, Connection.setConnected, Connection.changeConnection.
  run. by destruct (amqp_Dial E l (Connection.addr c)).
Qed.




(** A successful [Connect] walks the steps of the transition system:
    the connection the method ends in is the one the steps end in. *)
Lemma Connect_follows_steps (E : Amqp) (addr logger : string) (tr : Transport) :
  amqp_Dial E [] addr = inl tr →
  ∃ c' l',
    Connection.Connect E (Connection.NewConnection addr logger) [] = Returns (None, c') l'
    ∧ Lifecycle.reachable addr logger (Lifecycle.mkState c' Lifecycle.Watching).
Proof.
  intros Hdial.
  pose proof (dial_resolves E (Connection.NewConnection addr logger) []) as Hd.
  simpl in Hd. rewrite Hdial in Hd.
  eexists _, _. split.
  - unfold Connection.Connect, mbind, M_bind. rewrite Hd. reflexivity.
  - unfold Lifecycle.reachable, Lifecycle.initial. simpl.
    eapply rtc_l; [apply Lifecycle.step_Connect|].
    eapply rtc_l; [apply (Lifecycle.step_Dial_ok _ _ tr)|].
    eapply rtc_l; [apply Lifecycle.step_dial_return|].
    eapply rtc_l; [apply Lifecycle.step_Connect_ok|].
    apply rtc_refl.
Qed.


(** ** Declare *)



(** The loop changes nothing in the session; it runs the declarations
    from the front and stops behind the first one that fails. *)
Lemma declareAll_replays (E : Amqp) (role : string) (ch : option Channel)
    (decls : list Declaration) (s : Session.t) (l : Log) :
  ∃ err l',
    Session.declareAll E role ch decls s l = Returns (err, s) l'
    ∧ match err with
      | None => l' = l ++ (EvDeclare ch <$> decls)
      | Some e =>
          ∃ pre d post e0,
            decls = pre ++ d :: post
            ∧ l' = l ++ (EvDeclare ch <$> pre ++ [d])
            ∧ run_Declaration E (l ++ (EvDeclare ch <$> pre)) ch d = Some e0
            ∧ e = "failed to declare for " +:+ role +:+ ": " +:+ e0
      end.
Proof.
  revert l. induction decls as [|d decls IH]; intros l.
  - exists None, l. split; [done|]. simpl. by rewrite app_nil_r.
  - simpl. run. destruct (run_Declaration E l ch d) as [e0|] eqn:Hd.
    + eexists (Some _), _. split; [reflexivity|].
      exists [], d, decls, e0. simpl. by rewrite app_nil_r.
    + destruct (IH (l ++ [EvDeclare ch d])) as (err & l' & Hrun & Hlog).
      exists err, l'. split; [exact Hrun|].
      destruct err as [e|].
      * destruct Hlog as (pre & d' & post & e0 & -> & -> & Hfail & ->).
        exists (d :: pre), d', post, e0. simpl.
        rewrite <- !app_assoc in *. simpl in *. done.
      * rewrite Hlog, <- app_assoc. done.
Qed.







(** * Scenarios *)

Example Declare_subscription :
  ∃ s, Session.Declare_ agreeable oneSubscription [] = Returns (None, s)
         [EvDial "amqp://broker"; EvNotifyClose 1; EvGoMonitor "amqp://broker";
          EvLog "log" Info "amqp consumer connection established";
          EvChannel 1;
          EvDeclare (Some 11) (AutoExchange "events");
          EvDeclare (Some 11) (AutoQueue "q1");
          EvDeclare (Some 11) (AutoBinding "user.created" "q1" "events")].
Proof. eexists. vm_compute. reflexivity. Qed.

Example Declare_refused_queue :
  ∃ s l,
    Session.Declare_ noQueues oneSubscription []
      = Returns (Some "failed to declare for consumer: ACCESS_REFUSED q1", s) l
    ∧ declarations l
        = [(Some 11, AutoExchange "events"); (Some 11, AutoQueue "q1")].
Proof. eexists _, _. split; vm_compute; reflexivity. Qed.

Example Declare_then_Publish :
  ∃ s l,
    (Session.Declare_ agreeable;;
     Session.Publish agreeable "user.created" (VProto "payload")) onePublisher []
      = Returns (None, s) l
    ∧ last l
        = Some (EvLog "log" Info
                  "published message to exchange events with routingKey user.created")
    ∧ EvPublish 11 "events" "user.created" false false
        (mkPublishing "application/octet-stream" Transient 0 "payload") ∈ l.
Proof.
  eexists _, _. split; [vm_compute; reflexivity|].
  split; [reflexivity|]. repeat constructor.
Qed.

Example Declare_unreachable :
  ∃ s l,
    Session.Declare_ unreachable oneSubscription []
      = Returns
          (Some "failed to create amqp connection: unable to connect to amqp server: dial tcp: connection refused",
           s) l
    ∧ declarations l = []
    ∧ Session.Declare_ unreachable s l = Panics nil_dereference l.
Proof. eexists _, _. split; [|split]; vm_compute; reflexivity. Qed.

Example Session_Shutdown_closes_nothing :
  ∃ s l,
    (Session.Declare_ agreeable;; Session.Shutdown agreeable) oneSubscription []
      = Returns (tt, s) l
    ∧ closed l = []
    ∧ last l = Some (EvLog "log" Info "amqp consumer connection closed")
    ∧ Session.done s = true.
Proof. eexists _, _. repeat split; vm_compute; reflexivity. Qed.

Example dispatch_to_handler :
  ∃ l,
    Session.rangeDeliveries [created] oneSubscription [] = Returns (tt, oneSubscription) l
    ∧ handled l = [created].
Proof. eexists. split; vm_compute; reflexivity. Qed.

(** * The theorems at sample inputs *)

Lemma AddPublisher_duplicate_rejected_witness :
  Session.publishers onePublisher !! "user.created" = Some "events"
  ∧ Session.AddPublisher "audit" "user.created" onePublisher []
      = Returns (Some "a publisher with that routingKey is already registered",
                 onePublisher) [].
Proof.
  split; [reflexivity|].
  apply (AddPublisher_duplicate_rejected onePublisher [] "events" "audit" "user.created").
  reflexivity.
Defined.

Lemma AddSubscription_second_queue_rejected_witness :
  Session.AddSubscription "events" "q1" "user.created" ackAll emptySession []
    = Returns (None, oneSubscription) [EvLog "log" Info "added subscription"]
  ∧ Session.AddSubscription "events" "q2" "user.deleted" dropAll oneSubscription []
      = Returns (Some "a consumer queue with name 'q1' has already been defined",
                 oneSubscription) [].
Proof.
  split; [reflexivity|].
  apply (AddSubscription_second_queue_rejected emptySession oneSubscription
           [] [EvLog "log" Info "added subscription"] []
           "events" "q1" "user.created" ackAll "events" "q2" "user.deleted" dropAll).
  - reflexivity.
  - discriminate.
  - discriminate.
Defined.

Lemma AddSubscription_duplicate_key_replaces_witness :
  Session.consumerQueue oneSubscription = "q1"
  ∧ Session.subscribers oneSubscription !! "user.created" = Some ackAll
  ∧ ∃ s1,
      Session.AddSubscription "events" "q1" "user.created" dropAll oneSubscription []
        = Returns (None, s1) [EvLog "log" Info "added subscription"]
      ∧ Session.subscribers s1 !! "user.created" = Some dropAll
      ∧ length (Session.consumerDecls s1) = 6.
Proof.
  split; [reflexivity|]. split; [reflexivity|].
  destruct (AddSubscription_duplicate_key_replaces oneSubscription []
              "events" "q1" "user.created" ackAll dropAll)
    as (s1 & Hrun & Hnew & _ & Hdecls & _).
  - reflexivity.
  - reflexivity.
  - exists s1. split; [exact Hrun|]. split; [exact Hnew|].
    rewrite Hdecls. reflexivity.
Defined.

Lemma Publish_unregistered_key_witness :
  Session.publishers onePublisher !! "user.deleted" = None
  ∧ Session.Publish agreeable "user.deleted" (VOther "int") onePublisher []
      = Returns
          (Some "no publisher with routingKey user.deleted registered, cannot resolve exchange",
           onePublisher) [].
Proof.
  split; [reflexivity|].
  apply (Publish_unregistered_key agreeable onePublisher [] "user.deleted" (VOther "int")).
  reflexivity.
Defined.

Lemma Publish_asserts_proto_message_witness :
  Session.publishers onePublisher !! "user.created" = Some "events"
  ∧ Session.Publish agreeable "user.created" (VOther "int") onePublisher []
      = Panics "interface conversion: int is not proto.Message: missing method ProtoMessage" [].
Proof.
  split; [reflexivity|].
  destruct (Publish_asserts_proto_message agreeable onePublisher []
              "user.created" "events" (VOther "int")) as (Hpanic & _ & _).
  - reflexivity.
  - apply Hpanic. discriminate.
Defined.

Lemma unroutable_delivery_is_nacked_witness :
  Session.subscribers oneSubscription !! RoutingKey deleted = None
  ∧ Session.rangeDeliveries [created; deleted; createdAgain] oneSubscription []
      = Returns (tt, oneSubscription)
          [EvLog "log" Info "incoming amqp delivery"; EvHandler created;
           EvLog "log" Info "incoming amqp delivery";
           EvLog "log" Error "delivery has routing key which cannot be processed, NACKing";
           EvNack deleted false false;
           EvLog "log" Info "incoming amqp delivery"; EvHandler createdAgain].
Proof.
  split; [reflexivity|].
  destruct (unroutable_delivery_is_nacked oneSubscription [] [created] [createdAgain] deleted)
    as (l1 & Hbefore & _ & Hgoes_on & _).
  - reflexivity.
  - injection Hbefore as <-. exact Hgoes_on.
Defined.



(** * Further properties *)

(** ** Connect and reconnect *)

Lemma dials_app (l1 l2 : Log) : dials (l1 ++ l2) = dials l1 ++ dials l2.
Proof. apply omap_app. Qed.

Lemma sleeps_app (l1 l2 : Log) : sleeps (l1 ++ l2) = sleeps l1 ++ sleeps l2.
Proof. apply omap_app. Qed.

Lemma Connect_resolves (E : Amqp) (c : Connection.t) (l : Log) :
  match amqp_Dial E l (Connection.addr c) with
  | inl tr =>
      Connection.Connect E c l
        = Returns
            (None,
             Connection.mk (Connection.addr c) (Some tr) (Connection.logger c)
               (Connection.done c) true (Some tr))
            (((l ++ [EvDial (Connection.addr c)]) ++ [EvNotifyClose tr])
               ++ [EvGoMonitor (Connection.addr c)])
  | inr err =>
      Connection.Connect E c l
        = Returns
            (Some ("unable to connect to amqp server: " +:+ err),
             Connection.mk (Connection.addr c) None (Connection.logger c)
               (Connection.done c) false (Connection.notifyCloseConnection c))
            (l ++ [EvDial (Connection.addr c)])
  end.
Proof.
  pose proof (dial_resolves E c l) as Hd.
  unfold Connection.Connect, mbind, M_bind.
  destruct (amqp_Dial E l (Connection.addr c)) as [tr|e]; rewrite Hd; reflexivity.
Qed.


(** X3. While every dial fails and the context is not cancelled,
    [reconnect] does not return, however many turns it is given: every
    turn dials the same address once and pauses [ReconnectDelay] once,
    and the connection stays without transport and not connected. *)
Theorem reconnect_never_gives_up (E : Amqp) (fuel : nat) (c : Connection.t) (l : Log) :
  (∀ h a, ∃ e, amqp_Dial E h a = inr e) →
  Connection.done c = false →
  ∃ c' l',
    Connection.reconnect E fuel c l = Returns (false, c') l'
    ∧ dials l' = dials l ++ replicate fuel (Connection.addr c)
    ∧ sleeps l' = sleeps l ++ replicate fuel Connection.ReconnectDelay
    ∧ (0 < fuel → Connection.connected c' = false ∧ Connection.conn c' = None).
Proof.
  intros Hdown. revert c l. induction fuel as [|fuel IH]; intros c l Hdone.
  - exists c, l. split; [done|]. simpl. rewrite !app_nil_r. split; [done|]. split; [done|]. lia.
  - simpl. unfold mbind at 1. unfold M_bind at 1. unfold gets at 1. rewrite Hdone.
    unfold mbind at 1. unfold M_bind at 1.
    pose proof (dial_resolves E c l) as Hd.
    destruct (Hdown l (Connection.addr c)) as [e He]. rewrite He in Hd. rewrite Hd.
    run.
    match goal with
    | |- ∃ _ _, Connection.reconnect E fuel ?c1 ?l1 = _ ∧ _ =>
        destruct (IH c1 l1) as (c' & l' & Hrun & Hdials & Hsl & Hoff); [done|]
    end.
    exists c', l'. split; [exact Hrun|]. simpl in *.
    rewrite Hdials, Hsl, !dials_app, !sleeps_app. simpl.
    rewrite !app_nil_r, <- !app_assoc. split; [done|]. split; [done|].
    intros _. destruct fuel as [|fuel'].
    + simpl in Hrun. injection Hrun as <- <-. done.
    + apply Hoff. lia.
Qed.

(** X1. [Connect] always returns, with nil exactly when the dial
    succeeded.  Then the handle is installed, the flag is up, the close
    notification is registered and the watchdog is started; on a failed
    dial the error is wrapped, the connection holds no transport, the
    flag is down and no watchdog is started. *)
Theorem Connect_starts_watchdog_on_success (E : Amqp) (c : Connection.t) (l : Log) :
  ∃ err c' l',
    Connection.Connect E c l = Returns (err, c') l'
    ∧ match err with
      | None =>
          ∃ tr, amqp_Dial E l (Connection.addr c) = inl tr
                ∧ Connection.conn c' = Some tr
                ∧ Connection.notifyCloseConnection c' = Some tr
                ∧ Connection.connected c' = true
                ∧ l' = l ++ [EvDial (Connection.addr c); EvNotifyClose tr;
                             EvGoMonitor (Connection.addr c)]
      | Some e =>
          ∃ e0, amqp_Dial E l (Connection.addr c) = inr e0
                ∧ e = "unable to connect to amqp server: " +:+ e0
                ∧ Connection.conn c' = None
                ∧ Connection.connected c' = false
                ∧ l' = l ++ [EvDial (Connection.addr c)]
      end.
Proof.
  pose proof (Connect_resolves E c l) as Hrun.
  destruct (amqp_Dial E l (Connection.addr c)) as [tr|e0];
    eexists _, _, _; (split; [exact Hrun|]); simpl.
  - exists tr. repeat (split; [done|]). by rewrite <- !app_assoc.
  - by exists e0.
Qed.

(** ** The connection's life *)

Lemma set_consumeConn_same (s : Session.t) (c : Connection.t) :
  Session.consumeConn s = Some c → Session.set_consumeConn (Some c) s = s.
Proof. destruct s; simpl; by intros ->. Qed.

Lemma set_produceConn_same (s : Session.t) (c : Connection.t) :
  Session.produceConn s = Some c → Session.set_produceConn (Some c) s = s.
Proof. destruct s; simpl; by intros ->. Qed.








(** X6. While the consumer connection reports not connected and the
    session is not cancelled, [Consume] only polls: every turn writes
    one log line and sleeps five seconds; it opens no channel and does
    not return. *)
Theorem Consume_offline_polls (E : Amqp) (fuel : nat) (s : Session.t) (l : Log)
    (c : Connection.t) :
  Session.done s = false →
  Session.consumeConn s = Some c →
  Connection.connected c = false →
  Session.Consume E fuel s l
    = Returns (false, s)
        (l ++ concat (replicate fuel
                        [EvLog (Session.logger s) Info "consuming halted: connection offline";
                         EvSleep 5])).
Proof.
  intros Hdone Hcc Hoff. revert l. induction fuel as [|fuel IH]; intros l.
  - simpl. run. by rewrite app_nil_r.
  - simpl. unfold mbind at 1. unfold M_bind at 1. unfold get at 1. rewrite Hdone.
    unfold mbind at 1. unfold M_bind at 1. unfold through at 1.
    rewrite Hcc. unfold Connection.IsConnected, gets. rewrite Hoff. simpl.
    rewrite (set_consumeConn_same s c Hcc). run. rewrite IH.
    by rewrite <- !app_assoc.
Qed.

(** X7. While the broker refuses channels on a connected consumer
    connection, [Consume] asks again in every turn without any pause:
    a turn is one channel request and one error line. *)
Theorem Consume_channel_error_retries_at_once (E : Amqp) (fuel : nat)
    (s : Session.t) (l : Log) (c : Connection.t) (tr : Transport) :
  Session.done s = false →
  Session.consumeConn s = Some c →
  Connection.connected c = true →
  Connection.conn c = Some tr →
  (∀ h, ∃ e, conn_Channel E h tr = inr e) →
  Session.Consume E fuel s l
    = Returns (false, s)
        (l ++ concat (replicate fuel
                        [EvChannel tr;
                         EvLog (Session.logger s) Error "failed to fetch channel"])).
Proof.
  intros Hdone Hcc Hup Hconn Hrefuse. revert l. induction fuel as [|fuel IH]; intros l.
  - simpl. run. by rewrite app_nil_r.
  - simpl. unfold mbind at 1. unfold M_bind at 1. unfold get at 1. rewrite Hdone.
    unfold mbind at 1. unfold M_bind at 1. unfold through at 1.
    rewrite Hcc. unfold Connection.IsConnected, gets. rewrite Hup. simpl.
    rewrite (set_consumeConn_same s c Hcc).
    unfold mbind at 1. unfold M_bind at 1. unfold through at 1.
    rewrite Hcc, (Channel_with_transport E c l tr Hconn).
    destruct (Hrefuse l) as [e ->].
    rewrite (set_consumeConn_same s c Hcc). run. rewrite IH.
    by rewrite <- !app_assoc.
Qed.

(** X8. [Consume] on a session without consumer connection (nothing
    declared yet) panics with a nil pointer dereference at its first
    connectivity check. *)
Theorem Consume_without_connection_panics (E : Amqp) (fuel : nat)
    (s : Session.t) (l : Log) :
  Session.done s = false →
  Session.consumeConn s = None →
  Session.Consume E (S fuel) s l = Panics nil_dereference l.
Proof.
  intros Hdone Hcc. simpl. unfold mbind at 1. unfold M_bind at 1. unfold get at 1.
  rewrite Hdone. unfold mbind at 1. unfold M_bind at 1. unfold through at 1.
  by rewrite Hcc.
Qed.

(** X9. [Session.Shutdown] always returns: the session context is
    cancelled, each connection held is flagged not connected with its
    context cancelled, nothing registered changes, and from then on
    [Consume] returns at its first cancellation check without I/O. *)
Theorem Session_Shutdown_stops_Consume (E : Amqp) (s : Session.t) (l : Log) :
  ∃ s' l',
    Session.Shutdown E s l = Returns (tt, s') l'
    ∧ Session.done s' = true
    ∧ registrations s' = registrations s
    ∧ Session.consumeConn s'
        = (λ c, Connection.set_done true (Connection.set_connected false c))
            <$> Session.consumeConn s
    ∧ Session.produceConn s'
        = (λ c, Connection.set_done true (Connection.set_connected false c))
            <$> Session.produceConn s
    ∧ ∀ E' fuel l2, Session.Consume E' (S fuel) s' l2 = Returns (true, s') l2.
Proof.
  unfold Session.Shutdown. run. unfold through.
  destruct (Session.consumeConn s) as [cc|] eqn:Hcc;
    destruct (Session.produceConn s) as [pc|] eqn:Hpc; simpl;
    rewrite ?Hcc, ?Hpc; simpl; rewrite ?Hpc; simpl;
    eexists _, _; (split; [reflexivity|]); simpl;
    rewrite ?Hcc, ?Hpc; repeat split.
Qed.

(** ** Connections of a session *)

Lemma ensureConnections_cases (E : Amqp) (s : Session.t) (l : Log) :
  ∃ err s1 l1,
    Session.ensureConnections E s l = Returns (err, s1) l1
    ∧ registrations s1 = registrations s
    ∧ Session.done s1 = Session.done s
    ∧ (∀ c, Session.consumeConn s = Some c → Session.consumeConn s1 = Some c)
    ∧ (∀ c, Session.produceConn s = Some c → Session.produceConn s1 = Some c)
    ∧ (∀ c, Session.consumeConn s = None → Session.consumeConn s1 = Some c →
         Session.consumerDecls s ≠ []
         ∧ (Connection.conn c = None → err ≠ None ∧ Session.produceConn s1 = Session.produceConn s))
    ∧ (∀ c, Session.produceConn s = None → Session.produceConn s1 = Some c →
         Session.producerDecls s ≠ [] ∧ (Connection.conn c = None → err ≠ None))
    ∧ match err with
      | None =>
          (Session.consumerDecls s ≠ [] → is_Some (Session.consumeConn s1))
          ∧ (Session.producerDecls s ≠ [] → is_Some (Session.produceConn s1))
      | Some _ =>
          (∃ c, Session.consumerDecls s ≠ [] ∧ Session.consumeConn s = None
                ∧ Session.consumeConn s1 = Some c ∧ Connection.conn c = None)
          ∨ (∃ c, Session.producerDecls s ≠ [] ∧ Session.produceConn s = None
                  ∧ Session.produceConn s1 = Some c ∧ Connection.conn c = None)
      end.
Proof.
  unfold Session.ensureConnections, registrations. run.
  destruct (Session.consumerDecls s) as [|d ds] eqn:Hds;
  destruct (Session.consumeConn s) as [c|] eqn:Hcc; simpl;
  [ | | |
    unfold through; simpl;
    pose proof (Connect_resolves E
                  (Connection.NewConnection (Session.addr s)
                     (Named (Session.logger s) "consumer")) l) as Hconnect;
    simpl in Hconnect;
    destruct (amqp_Dial E l (Session.addr s)) as [tr|e]; rewrite Hconnect; simpl ].
  all: try (destruct (Session.producerDecls s) as [|d' ds'] eqn:Hds';
            destruct (Session.produceConn s) as [c''|] eqn:Hcc'; simpl).
  all: try (unfold through; simpl;
            match goal with
            | |- context [Connection.Connect ?E0 ?c0 ?l0] =>
                pose proof (Connect_resolves E0 c0 l0) as Hconnect';
                simpl in Hconnect';
                destruct (amqp_Dial E0 l0 (Session.addr s)) as [tr'|e'];
                rewrite Hconnect'; simpl
            end).
  all: eexists _, _, _; (split; [reflexivity|]); simpl.
  all: rewrite ?Hds, ?Hds', ?Hcc, ?Hcc'.
  all: repeat split; try done; try (intros; simplify_eq; done); eauto.
  all: try (intros; simplify_eq; simpl in *; split; done).
  all: try (left; eexists; repeat split; done).
  all: try (right; eexists; repeat split; done).
Qed.

Lemma Declare_role_returns (E : Amqp) (role : string)
    (field : Session.t → option Connection.t)
    (set : option Connection.t → Session.t → Session.t)
    (decls : list Declaration) (s s' : Session.t) (l l' : Log) (err : error) :
  (∀ c, field s = Some c → set (Some c) s = s) →
  match decls with
  | [] => mret None
  | d :: ds =>
      through field set (Connection.Channel E)
        ≫= λ r, Session.declareAll E role (Session.dropError r) (d :: ds)
  end s l = Returns (err, s') l' →
  s' = s ∧ (decls ≠ [] → ∃ c tr, field s = Some c ∧ Connection.conn c = Some tr).
Proof.
  intros Hsame. destruct decls as [|d ds].
  - intros [= _ <- _]. done.
  - unfold mbind, M_bind, through.
    destruct (field s) as [c|] eqn:Hf; [|discriminate].
    destruct (Connection.conn c) as [tr|] eqn:Hc.
    + rewrite (Channel_with_transport E c l tr Hc), (Hsame c eq_refl).
      destruct (declareAll_replays E role (Session.dropError (conn_Channel E l tr))
                  (d :: ds) s (l ++ [EvChannel tr])) as (e & l2 & -> & _).
      intros [= _ <- _]. split; [done|]. by eauto.
    + by rewrite (Channel_nil_transport E c l Hc).
Qed.

(** What [Declare] leaves behind is what [ensureConnections] left behind. *)
Lemma Declare_state (E : Amqp) (s s' : Session.t) (l l' : Log) (err : error) :
  Session.Declare_ E s l = Returns (err, s') l' →
  ∃ err0 l1,
    Session.ensureConnections E s l = Returns (err0, s') l1
    ∧ (err = None →
         err0 = None
         ∧ (Session.consumerDecls s' ≠ [] →
              ∃ c tr, Session.consumeConn s' = Some c ∧ Connection.conn c = Some tr)
         ∧ (Session.producerDecls s' ≠ [] →
              ∃ c tr, Session.produceConn s' = Some c ∧ Connection.conn c = Some tr)).
Proof.
  unfold Session.Declare_. unfold mbind at 1. unfold M_bind at 1.
  destruct (Session.ensureConnections E s l) as [[err0 s1] l1|] eqn:Hens; [|discriminate].
  destruct err0 as [e|].
  { intros [= <- <- <-]. eexists _, _. split; [reflexivity|]. discriminate. }
  unfold mbind at 1. unfold M_bind at 1. unfold get at 1.
  unfold mbind at 1. unfold M_bind at 1.
  match goal with
  | |- match ?blk s1 l1 with _ => _ end = _ → _ =>
      destruct (blk s1 l1) as [[errC sC] lC|] eqn:HC; [|discriminate]
  end.
  apply Declare_role_returns in HC as [-> HconnC]; [|apply set_consumeConn_same].
  destruct errC as [e|].
  { intros [= <- <- <-]. eexists _, _. split; [reflexivity|]. discriminate. }
  unfold mbind at 1. unfold M_bind at 1. unfold get at 1.
  intros HP. apply Declare_role_returns in HP as [-> HconnP]; [|apply set_produceConn_same].
  eexists _, _. split; [reflexivity|]. done.
Qed.

Lemma Declare_frame (E : Amqp) (s s' : Session.t)
    (l l' : Log) (err : error) :
  Session.Declare_ E s l = Returns (err, s') l' →
  registrations s' = registrations s
  ∧ Session.done s' = Session.done s
  ∧ (∀ c, Session.consumeConn s = Some c → Session.consumeConn s' = Some c)
  ∧ (∀ c, Session.produceConn s = Some c → Session.produceConn s' = Some c)
  ∧ (Session.consumerDecls s = [] → Session.consumeConn s' = Session.consumeConn s)
  ∧ (Session.producerDecls s = [] → Session.produceConn s' = Session.produceConn s).
Proof.
  intros Hrun. apply Declare_state in Hrun as (err0 & l1 & Hens & _).
  destruct (ensureConnections_cases E s l)
    as (err1 & s1 & l1' & Hens' & Hreg & Hdone & Hcc & Hpc & Hnewc & Hnewp & _).
  rewrite Hens in Hens'. injection Hens' as <- <- <-.
  repeat (split; [done|]). split.
  - intros Hnil. destruct (Session.consumeConn s) as [c|] eqn:Hc; [by apply Hcc|].
    destruct (Session.consumeConn s') as [c'|] eqn:Hc'; [|done].
    by destruct (Hnewc c' eq_refl eq_refl).
  - intros Hnil. destruct (Session.produceConn s) as [c|] eqn:Hc; [by apply Hpc|].
    destruct (Session.produceConn s') as [c'|] eqn:Hc'; [|done].
    by destruct (Hnewp c' eq_refl eq_refl).
Qed.

Lemma Declare_nil_transports (E : Amqp) (s s' : Session.t) (l l' : Log) :
  Session.Declare_ E s l = Returns (None, s') l' →
  (Session.consumerDecls s ≠ [] →
     ∃ c tr, Session.consumeConn s' = Some c ∧ Connection.conn c = Some tr)
  ∧ (Session.producerDecls s ≠ [] →
       ∃ c tr, Session.produceConn s' = Some c ∧ Connection.conn c = Some tr).
Proof.
  intros Hrun.
  pose proof (Declare_frame _ _ _ _ _ _ Hrun) as (Hreg & _).
  apply Declare_state in Hrun as (err0 & l1 & _ & Hok).
  destruct (Hok eq_refl) as (_ & HC & HP).
  unfold registrations in Hreg. injection Hreg as _ _ _ Hcd Hpd.
  rewrite Hcd in HC. rewrite Hpd in HP. done.
Qed.

(** X13. A failed connect leaves its connection object, without
    transport, in the session; so after [ensureConnections] returned an
    error, no later [Declare] returns nil, whatever the broker does. *)
Theorem Declare_after_failed_connect_never_succeeds (E E' : Amqp)
    (s s1 s2 : Session.t) (l l1 l2 l3 : Log) (e : string) :
  Session.ensureConnections E s l = Returns (Some e, s1) l1 →
  Session.Declare_ E' s1 l2 ≠ Returns (None, s2) l3.
Proof.
  intros Hens Hrun.
  destruct (ensureConnections_cases E s l)
    as (err1 & s1' & l1' & Hens' & Hreg & _ & _ & _ & _ & _ & Hfail).
  rewrite Hens in Hens'. injection Hens' as <- <- <-.
  unfold registrations in Hreg. injection Hreg as _ _ _ Hcd Hpd.
  pose proof (Declare_frame _ _ _ _ _ _ Hrun)
    as (_ & _ & Hcc & Hpc & _).
  apply Declare_nil_transports in Hrun as [HC HP].
  destruct Hfail as [(c & Hne & _ & Hc & Hnone) | (c & Hne & _ & Hc & Hnone)].
  - rewrite <- Hcd in Hne. destruct (HC Hne) as (c' & tr & Hc' & Htr).
    rewrite (Hcc c Hc) in Hc'. congruence.
  - rewrite <- Hpd in Hne. destruct (HP Hne) as (c' & tr & Hc' & Htr).
    rewrite (Hpc c Hc) in Hc'. congruence.
Qed.

(** X10. After [ensureConnections] returned nil, calling it again
    does nothing: no dial, no log line, the same session, nil. *)
Theorem ensureConnections_connects_once (E E' : Amqp) (s s1 : Session.t)
    (l l1 l2 : Log) :
  Session.ensureConnections E s l = Returns (None, s1) l1 →
  Session.ensureConnections E' s1 l2 = Returns (None, s1) l2.
Proof.
  intros Hens.
  destruct (ensureConnections_cases E s l)
    as (err1 & s1' & l1' & Hens' & Hreg & _ & Hcc & Hpc & _ & _ & Hres).
  rewrite Hens in Hens'. injection Hens' as <- <- <-.
  unfold registrations in Hreg. injection Hreg as _ _ _ Hcd Hpd.
  destruct Hres as [HC HP]. rewrite <- Hcd in HC. rewrite <- Hpd in HP.
  unfold Session.ensureConnections. run.
  destruct (Session.consumerDecls s1) as [|d ds] eqn:Hds;
    destruct (Session.consumeConn s1) as [c|] eqn:Hc; simpl;
    try (by destruct HC as [? [=]]); rewrite ?Hds, ?Hc; simpl.
  all: destruct (Session.producerDecls s1) as [|d' ds'] eqn:Hds';
    destruct (Session.produceConn s1) as [c'|] eqn:Hc'; simpl;
    try (by destruct HP as [? [=]]); reflexivity.
Qed.

(** X11. [Declare] changes nothing that is registered and not the
    session context; a connection the session already holds stays as
    it is, and a role without declarations gets no connection. *)
Theorem Declare_keeps_registrations_and_connections (E : Amqp) (s s' : Session.t)
    (l l' : Log) (err : error) :
  Session.Declare_ E s l = Returns (err, s') l' →
  registrations s' = registrations s
  ∧ Session.done s' = Session.done s
  ∧ (∀ c, Session.consumeConn s = Some c → Session.consumeConn s' = Some c)
  ∧ (∀ c, Session.produceConn s = Some c → Session.produceConn s' = Some c)
  ∧ (Session.consumerDecls s = [] → Session.consumeConn s' = Session.consumeConn s)
  ∧ (Session.producerDecls s = [] → Session.produceConn s' = Session.produceConn s).
Proof. apply Declare_frame. Qed.

(** X12. When [Declare] returns nil, every role that has declarations
    holds a connection with a transport handle. *)
Theorem Declare_nil_means_connected (E : Amqp) (s s' : Session.t) (l l' : Log) :
  Session.Declare_ E s l = Returns (None, s') l' →
  (Session.consumerDecls s ≠ [] →
     ∃ c tr, Session.consumeConn s' = Some c ∧ Connection.conn c = Some tr)
  ∧ (Session.producerDecls s ≠ [] →
       ∃ c tr, Session.produceConn s' = Some c ∧ Connection.conn c = Some tr).
Proof. apply Declare_nil_transports. Qed.

(** ** What the methods keep *)

Section Keeps.
Context {S : Type} (R : S → S → Prop) `{!Reflexive R} `{!Transitive R}.

Lemma keeps_ret {A} (a : A) : keeps R (mret a).
Proof. intros s l a' s' l' Hrun. unfold mret, M_ret in Hrun. simplify_eq. reflexivity. Qed.

Lemma keeps_bind {A B} (m : M S A) (f : A → M S B) :
  keeps R m → (∀ a, keeps R (f a)) → keeps R (m ≫= f).
Proof.
  intros Hm Hf s l b s' l'. unfold mbind, M_bind.
  destruct (m s l) as [[a s1] l1|] eqn:Hrun; [|discriminate].
  intros Hrest. transitivity s1; [by eapply Hm|by eapply Hf].
Qed.

Lemma keeps_get : keeps R get.
Proof.
  intros s l a s' l' Hrun.
  unfold get, gets, emit, emits, history in Hrun. simplify_eq. reflexivity.
Qed.

Lemma keeps_gets {A} (f : S → A) : keeps R (gets f).
Proof.
  intros s l a s' l' Hrun.
  unfold get, gets, emit, emits, history in Hrun. simplify_eq. reflexivity.
Qed.

Lemma keeps_emit (e : Event) : keeps R (emit e).
Proof.
  intros s l a s' l' Hrun.
  unfold get, gets, emit, emits, history in Hrun. simplify_eq. reflexivity.
Qed.

Lemma keeps_emits (es : list Event) : keeps R (emits es).
Proof.
  intros s l a s' l' Hrun.
  unfold get, gets, emit, emits, history in Hrun. simplify_eq. reflexivity.
Qed.

Lemma keeps_history : keeps R history.
Proof.
  intros s l a s' l' Hrun.
  unfold get, gets, emit, emits, history in Hrun. simplify_eq. reflexivity.
Qed.

Lemma keeps_panic {A} (msg : string) : keeps R (panic (A:=A) msg).
Proof. intros s l a s' l' [=]. Qed.

Lemma keeps_modify (g : S → S) : (∀ s, R s (g s)) → keeps R (modify g).
Proof. intros Hg s l a s' l' Hrun. unfold modify in Hrun. simplify_eq. apply Hg. Qed.

Lemma keeps_through {C A} (field : S → option C) (set : option C → S → S)
    (m : M C A) :
  (∀ s c, R s (set (Some c) s)) → keeps R (through field set m).
Proof.
  intros Hset s l a s' l'. unfold through.
  destruct (field s) as [c|]; [|discriminate].
  destruct (m c l) as [[a' c'] l1|]; [|discriminate].
  intros Hrun. simplify_eq. apply Hset.
Qed.

End Keeps.

Ltac keeps_step :=
  first
    [ assumption
    | apply keeps_ret; tc_solve
    | apply keeps_get; tc_solve
    | apply keeps_gets; tc_solve
    | apply keeps_emit; tc_solve
    | apply keeps_emits; tc_solve
    | apply keeps_history; tc_solve
    | apply keeps_panic
    | apply keeps_modify; intros ?; reflexivity
    | apply keeps_through; intros ? ?; reflexivity
    | apply keeps_bind; [tc_solve| |intros ?]
    | match goal with
      | |- keeps _ (match ?x with _ => _ end) => destruct x
      | |- keeps _ (if ?b then _ else _) => destruct b
      end ].

Lemma Publish_keeps_registrations (E : Amqp) (routingKey : string) (event : Value) :
  keeps sameRegistrations (Session.Publish E routingKey event).
Proof. unfold Session.Publish. cbv zeta. repeat keeps_step. Qed.

Lemma declareAll_keeps_registrations (E : Amqp) (role : string)
    (ch : option Channel) (decls : list Declaration) :
  keeps sameRegistrations (Session.declareAll E role ch decls).
Proof. induction decls as [|d decls IH]; simpl; repeat keeps_step. Qed.

Lemma rangeDeliveries_keeps_registrations (ds : list Delivery) :
  keeps sameRegistrations (Session.rangeDeliveries ds).
Proof.
  induction ds as [|d ds IH]; simpl; unfold Session.dispatch; cbv zeta;
    repeat keeps_step.
Qed.

Lemma Consume_keeps_registrations (E : Amqp) (fuel : nat) :
  keeps sameRegistrations (Session.Consume E fuel).
Proof.
  induction fuel as [|fuel IH]; simpl; repeat keeps_step.
  apply rangeDeliveries_keeps_registrations.
Qed.

Lemma Shutdown_keeps_registrations (E : Amqp) :
  keeps sameRegistrations (Session.Shutdown E).
Proof. unfold Session.Shutdown. repeat keeps_step. Qed.

Lemma Registration_covers (s s' : Session.t) (l l' : Log) (err : error)
    (exchangeName queueName routingKey : string) (handler : Subscriber) :
  topologyCovered s →
  Session.AddSubscription exchangeName queueName routingKey handler s l
    = Returns (err, s') l' →
  topologyCovered s'.
Proof.
  intros [Hp Hs]. unfold Session.AddSubscription. run.
  destruct (negb _ && negb _).
  { intros [= _ <- _]. by split. }
  intros [= _ <- _]. split; simpl; [exact Hp|].
  intros key h. destruct (decide (routingKey = key)) as [->|Hne].
  - intros _. exists queueName, exchangeName.
    rewrite !elem_of_app, !list_elem_of_singleton. naive_solver.
  - rewrite lookup_insert_ne by done. intros Hk.
    destruct (Hs key h Hk) as (q & ex & ? & ? & ?). exists q, ex.
    rewrite !elem_of_app. naive_solver.
Qed.

Lemma Publisher_covers (s s' : Session.t) (l l' : Log) (err : error)
    (exchangeName routingKey : string) :
  topologyCovered s →
  Session.AddPublisher exchangeName routingKey s l = Returns (err, s') l' →
  topologyCovered s'.
Proof.
  intros [Hp Hs]. unfold Session.AddPublisher. run.
  destruct (Session.publishers s !! routingKey) as [old|] eqn:Hold.
  { intros [= _ <- _]. by split. }
  intros [= _ <- _]. split; simpl; [|exact Hs].
  intros key ex. destruct (decide (routingKey = key)) as [->|Hne].
  - rewrite lookup_insert_eq. intros [= ->].
    rewrite elem_of_app, list_elem_of_singleton. by right.
  - rewrite lookup_insert_ne by done. intros Hk.
    rewrite elem_of_app. left. by eapply Hp.
Qed.

Lemma sameRegistrations_covered (s s' : Session.t) :
  sameRegistrations s s' → topologyCovered s → topologyCovered s'.
Proof.
  unfold sameRegistrations, registrations, topologyCovered.
  intros [= Hsub Hpub _ Hcd Hpd]. by rewrite Hsub, Hpub, Hcd, Hpd.
Qed.

Lemma InUse_covered (s : Session.t) :
  InUse s → topologyCovered s.
Proof.
  induction 1 as [addr logger
                 |s l ex q rk h err s' l' _ IH Hrun
                 |s l ex rk err s' l' _ IH Hrun
                 |E s l err s' l' _ IH Hrun
                 |E s l rk ev err s' l' _ IH Hrun
                 |E s l s' l' _ IH Hrun
                 |E fuel s l r s' l' _ IH Hrun].
  - split; intros key x; simpl; by rewrite lookup_empty.
  - by eapply Registration_covers.
  - by eapply Publisher_covers.
  - eapply sameRegistrations_covered; [|exact IH].
    by apply Declare_frame in Hrun as [? _].
  - eapply sameRegistrations_covered; [|exact IH].
    by eapply Publish_keeps_registrations.
  - eapply sameRegistrations_covered; [|exact IH].
    by eapply Shutdown_keeps_registrations.
  - eapply sameRegistrations_covered; [|exact IH].
    by eapply Consume_keeps_registrations.
Qed.

(** X14. In every session a program can reach through the methods, each
    registered publisher's exchange is among the producer declarations,
    and each registered handler's exchange, queue and binding are among
    the consumer declarations. *)
Theorem registered_topology_is_declared (s : Session.t) :
  InUse s → topologyCovered s.
Proof. apply InUse_covered. Qed.

(** X19. [Publish], [Consume] and [Session.Shutdown] never change what
    is registered: handlers, exchanges, queue name and both declaration
    lists are after a call what they were before. *)
Theorem methods_keep_registrations (E : Amqp) (s s' : Session.t) (l l' : Log) :
  (∀ routingKey event err,
     Session.Publish E routingKey event s l = Returns (err, s') l' →
     registrations s' = registrations s)
  ∧ (∀ fuel r,
       Session.Consume E fuel s l = Returns (r, s') l' →
       registrations s' = registrations s)
  ∧ (Session.Shutdown E s l = Returns (tt, s') l' →
       registrations s' = registrations s).
Proof.
  split; [|split].
  - intros routingKey event err Hrun. by eapply Publish_keeps_registrations.
  - intros fuel r Hrun. by eapply Consume_keeps_registrations.
  - intros Hrun. by eapply Shutdown_keeps_registrations.
Qed.

(** ** Publish and Consume after Declare *)

(** X15. [Publish] returns nil exactly when the key has a publisher,
    the event is a protobuf message that marshals, the producer
    connection yields a channel and the broker accepts the message;
    then the session is unchanged and the log gains one channel
    request, one publish on the registered exchange with that routing
    key (octet-stream, transient, priority 0) and the success line. *)
Theorem Publish_nil_iff_accepted (E : Amqp) (s s' : Session.t) (l l' : Log)
    (routingKey : string) (event : Value) :
  Session.Publish E routingKey event s l = Returns (None, s') l'
  ↔ ∃ exchange m body c tr ch,
      Session.publishers s !! routingKey = Some exchange
      ∧ event = VProto m
      ∧ proto_Marshal E m = inl body
      ∧ Session.produceConn s = Some c
      ∧ Connection.conn c = Some tr
      ∧ conn_Channel E l tr = inl ch
      ∧ ch_Publish E (l ++ [EvChannel tr]) ch exchange routingKey
          (mkPublishing "application/octet-stream" Transient 0 body) = None
      ∧ s' = s
      ∧ l' = l ++ [EvChannel tr;
                   EvPublish ch exchange routingKey false false
                     (mkPublishing "application/octet-stream" Transient 0 body);
                   EvLog (Session.logger s) Info
                     ("published message to exchange " +:+ exchange
                      +:+ " with routingKey " +:+ routingKey)].
Proof.
  split.
  - unfold Session.Publish. run.
    destruct (Session.publishers s !! routingKey) as [exchange|] eqn:Hreg; [|discriminate].
    destruct event as [|m|repr]; [discriminate| |discriminate].
    destruct (proto_Marshal E m) as [body|err] eqn:Hm; [|discriminate].
    unfold through.
    destruct (Session.produceConn s) as [c|] eqn:Hp; [|discriminate].
    destruct (Connection.conn c) as [tr|] eqn:Hc;
      [|by rewrite (Channel_nil_transport E c l Hc)].
    rewrite (Channel_with_transport E c l tr Hc).
    destruct (conn_Channel E l tr) as [ch|err] eqn:Hch; [|discriminate].
    destruct (ch_Publish E (l ++ [EvChannel tr]) ch exchange routingKey _) eqn:Hpub;
      [discriminate|].
    intros [= <- <-]. exists exchange, m, body, c, tr, ch.
    repeat (split; [done|]). split.
    + by apply set_produceConn_same.
    + by rewrite <- !app_assoc.
  - intros (exchange & m & body & c & tr & ch
            & Hreg & -> & Hm & Hp & Hc & Hch & Hpub & -> & ->).
    unfold Session.Publish. run. rewrite Hreg, Hm. unfold through.
    rewrite Hp, (Channel_with_transport E c l tr Hc), Hch, Hpub.
    rewrite (set_produceConn_same s c Hp). by rewrite <- !app_assoc.
Qed.





Lemma handled_app (l1 l2 : Log) : handled (l1 ++ l2) = handled l1 ++ handled l2.
Proof. apply omap_app. Qed.

(** X18. Over a feed, the handlers invoked are those of the deliveries
    whose routing key is registered, once each and in feed order
    (handlers that invoke no handler themselves). *)
Theorem deliveries_reach_their_handlers (s : Session.t) (l : Log)
    (ds : list Delivery) :
  Forall (λ d, ∀ handler : Subscriber,
            Session.subscribers s !! RoutingKey d = Some handler →
            handled (handler d) = []) ds →
  ∃ l',
    Session.rangeDeliveries ds s l = Returns (tt, s) l'
    ∧ handled l'
      = handled l ++ filter (λ d, is_Some (Session.subscribers s !! RoutingKey d)) ds.
Proof.
  intros Hquiet. eexists. split; [apply rangeDeliveries_returns|].
  rewrite handled_app. f_equal.
  induction Hquiet as [|d ds Hd _ IH]; [done|].
  rewrite fmap_cons, concat_cons, handled_app, IH. unfold deliveryEvents.
  destruct (Session.subscribers s !! RoutingKey d) as [h|] eqn:Hh.
  - rewrite filter_cons_True by (rewrite Hh; by eauto).
    change (handled (EvLog (Session.logger s) Info "incoming amqp delivery"
                       :: EvHandler d :: h d))
      with (d :: handled (h d)).
    by rewrite (Hd h eq_refl).
  - rewrite filter_cons_False by (rewrite Hh; by intros [? ?]). done.
Qed.

(** * The further properties at sample inputs *)


Lemma reconnect_never_gives_up_witness :
  (∀ h a, ∃ e, amqp_Dial unreachable h a = inr e)
  ∧ Connection.done downConnection = false
  ∧ ∃ c' l',
      Connection.reconnect unreachable 4 downConnection [] = Returns (false, c') l'
      ∧ dials l' = replicate 4 "amqp://broker"
      ∧ sleeps l' = replicate 4 5.
Proof.
  assert (∀ h a, ∃ e, amqp_Dial unreachable h a = inr e) as Hdown.
  { intros h a. eexists. reflexivity. }
  split; [exact Hdown|]. split; [reflexivity|].
  destruct (reconnect_never_gives_up unreachable 4 downConnection [] Hdown eq_refl)
    as (c' & l' & Hrun & Hdials & Hsleeps & _).
  exists c', l'. split; [exact Hrun|]. split; [exact Hdials|exact Hsleeps].
Defined.



Lemma Consume_offline_polls_witness :
  Session.done offlineSubscription = false
  ∧ Session.consumeConn offlineSubscription = Some downConnection
  ∧ Connection.connected downConnection = false
  ∧ Session.Consume agreeable 2 offlineSubscription []
      = Returns (false, offlineSubscription)
          [EvLog "log" Info "consuming halted: connection offline"; EvSleep 5;
           EvLog "log" Info "consuming halted: connection offline"; EvSleep 5].
Proof.
  split; [reflexivity|]. split; [reflexivity|]. split; [reflexivity|].
  apply (Consume_offline_polls agreeable 2 offlineSubscription [] downConnection
           eq_refl eq_refl eq_refl).
Defined.

Lemma Consume_channel_error_retries_at_once_witness :
  Session.consumeConn declaredSubscription
    = Some (Connection.mk "amqp://broker" (Some 1) "log.consumer" false true (Some 1))
  ∧ (∀ h, ∃ e, conn_Channel noChannels h 1 = inr e)
  ∧ Session.Consume noChannels 2 declaredSubscription []
      = Returns (false, declaredSubscription)
          [EvChannel 1; EvLog "log" Error "failed to fetch channel";
           EvChannel 1; EvLog "log" Error "failed to fetch channel"].
Proof.
  assert (∀ h, ∃ e, conn_Channel noChannels h 1 = inr e) as Hrefuse.
  { intros h. eexists. reflexivity. }
  split; [reflexivity|]. split; [exact Hrefuse|].
  apply (Consume_channel_error_retries_at_once noChannels 2 declaredSubscription []
           (Connection.mk "amqp://broker" (Some 1) "log.consumer" false true (Some 1)) 1
           eq_refl eq_refl eq_refl eq_refl Hrefuse).
Defined.

Lemma Consume_without_connection_panics_witness :
  Session.done oneSubscription = false
  ∧ Session.consumeConn oneSubscription = None
  ∧ Session.Consume agreeable 1 oneSubscription [] = Panics nil_dereference [].
Proof.
  split; [reflexivity|]. split; [reflexivity|].
  apply (Consume_without_connection_panics agreeable 0 oneSubscription []
           eq_refl eq_refl).
Defined.

Lemma ensureConnections_connects_once_witness :
  Session.ensureConnections agreeable oneSubscription []
    = Returns (None, stateAfter (Session.ensureConnections agreeable) oneSubscription)
        (logAfter (Session.ensureConnections agreeable) oneSubscription)
  ∧ Session.ensureConnections unreachable
      (stateAfter (Session.ensureConnections agreeable) oneSubscription) []
      = Returns (None, stateAfter (Session.ensureConnections agreeable) oneSubscription) [].
Proof.
  split; [reflexivity|].
  apply (ensureConnections_connects_once agreeable unreachable oneSubscription
           (stateAfter (Session.ensureConnections agreeable) oneSubscription) []
           (logAfter (Session.ensureConnections agreeable) oneSubscription) [] eq_refl).
Defined.

Lemma Declare_keeps_registrations_and_connections_witness :
  Session.Declare_ agreeable oneSubscription []
    = Returns (None, declaredSubscription) (logAfter (Session.Declare_ agreeable) oneSubscription)
  ∧ registrations declaredSubscription = registrations oneSubscription
  ∧ Session.produceConn declaredSubscription = Session.produceConn oneSubscription.
Proof.
  split; [reflexivity|].
  destruct (Declare_keeps_registrations_and_connections agreeable oneSubscription
              declaredSubscription [] (logAfter (Session.Declare_ agreeable) oneSubscription)
              None eq_refl) as (Hreg & _ & _ & _ & _ & Hprod).
  split; [exact Hreg|]. apply Hprod. reflexivity.
Defined.

Lemma Declare_nil_means_connected_witness :
  Session.Declare_ agreeable oneSubscription []
    = Returns (None, declaredSubscription) (logAfter (Session.Declare_ agreeable) oneSubscription)
  ∧ ∃ c tr, Session.consumeConn declaredSubscription = Some c
            ∧ Connection.conn c = Some tr.
Proof.
  split; [reflexivity|].
  destruct (Declare_nil_means_connected agreeable oneSubscription declaredSubscription []
              (logAfter (Session.Declare_ agreeable) oneSubscription) eq_refl)
    as [Hconsumer _].
  apply Hconsumer. discriminate.
Defined.

Lemma Declare_after_failed_connect_never_succeeds_witness :
  Session.ensureConnections unreachable oneSubscription []
    = Returns
        (Some "failed to create amqp connection: unable to connect to amqp server: dial tcp: connection refused",
         stateAfter (Session.ensureConnections unreachable) oneSubscription)
        (logAfter (Session.ensureConnections unreachable) oneSubscription)
  ∧ Session.Declare_ agreeable
      (stateAfter (Session.ensureConnections unreachable) oneSubscription) []
      ≠ Returns (None, declaredSubscription) [].
Proof.
  split; [reflexivity|].
  apply (Declare_after_failed_connect_never_succeeds unreachable agreeable oneSubscription
           (stateAfter (Session.ensureConnections unreachable) oneSubscription)
           declaredSubscription []
           (logAfter (Session.ensureConnections unreachable) oneSubscription) [] []
           "failed to create amqp connection: unable to connect to amqp server: dial tcp: connection refused"
           eq_refl).
Defined.

Lemma registered_topology_is_declared_witness :
  InUse oneSubscription ∧ topologyCovered oneSubscription.
Proof.
  assert (InUse oneSubscription) as Huse.
  { apply (InUse_AddSubscription emptySession [] "events" "q1" "user.created" ackAll
             None oneSubscription [EvLog "log" Info "added subscription"]).
    - apply InUse_NewSession.
    - reflexivity. }
  split; [exact Huse|]. apply (registered_topology_is_declared oneSubscription Huse).
Defined.



Lemma deliveries_reach_their_handlers_witness :
  ∃ l',
    Session.rangeDeliveries [created; deleted; createdAgain] oneSubscription []
      = Returns (tt, oneSubscription) l'
    ∧ handled l' = [created; createdAgain].
Proof.
  apply (deliveries_reach_their_handlers oneSubscription []
           [created; deleted; createdAgain]).
  repeat constructor; intros handler Hh; vm_compute in Hh;
    first [discriminate Hh | injection Hh as <-; reflexivity].
Defined.

Lemma Consume_runs_the_feed_witness :
  Session.consumeConn declaredSubscription
    = Some (Connection.mk "amqp://broker" (Some 1) "log.consumer" false true (Some 1))
  ∧ ch_Consume busy [EvChannel 1; EvQos 11 10 0 false] 11 "q1"
      = inl [created; deleted; createdAgain]
  ∧ Session.Consume busy 1 declaredSubscription []
      = (Session.rangeDeliveries [created; deleted; createdAgain];;
         Session.Consume busy 0)
          declaredSubscription
          [EvChannel 1; EvQos 11 10 0 false; EvConsume 11 "q1"].
Proof.
  split; [reflexivity|]. split; [reflexivity|].
  apply (Consume_runs_the_feed busy 0 declaredSubscription []
           (Connection.mk "amqp://broker" (Some 1) "log.consumer" false true (Some 1))
           1 11 [created; deleted; createdAgain]
           eq_refl eq_refl eq_refl eq_refl eq_refl eq_refl).
Defined.
